(** * server.js: the REST facade over the messaging client library

    A shallow embedding of [src/server.js].  The facade owns two globals
    ([client], [clientReady]), one middleware ([checkClientReady]), fifty
    route handlers and the listeners that [initializeClient] registers on
    the client.  Everything else (the client, its chat and message objects,
    the constructors [Location], [Poll], [List], [Buttons], the clock and
    the file system) is external: a handler interacts with it through
    effects, and an oracle plays the environment. *)

From Stdlib Require Import String Ascii List ZArith Bool Lia DecimalString.
Import ListNotations.
Local Open Scope string_scope.
Local Open Scope list_scope.

Set Implicit Arguments.

(** String concatenation, kept apart from list append. *)
Notation "s +++ t" := (String.append s t) (at level 60, right associativity).

(** ** JavaScript values *)

Module JS.

(** The values that cross the facade: JSON request bodies, the fields read
    off library objects and the objects handed to [res.json].  Numbers are
    integers: the code only tests them for zero and passes them on.  An
    object is the list of its own properties, first binding first. *)
#[warnings="-register-all"]
Inductive jsval : Type :=
| JUndefined
| JNull
| JBool (b : bool)
| JNum (n : Z)
| JStr (s : string)
| JArr (l : list jsval)
| JObj (fields : list (string * jsval)).

(** [!v] is [negb (truthy v)]. *)
Definition truthy (v : jsval) : bool :=
  match v with
  | JUndefined | JNull => false
  | JBool b => b
  | JNum n => negb (n =? 0)%Z
  | JStr s => negb (s =? "")
  | JArr _ | JObj _ => true
  end.

(** [Array.isArray(v)] *)
Definition isArray (v : jsval) : bool :=
  match v with JArr _ => true | _ => false end.

(** [v === undefined] *)
Definition is_undefined (v : jsval) : bool :=
  match v with JUndefined => true | _ => false end.

Definition nullish (v : jsval) : bool :=
  match v with JUndefined | JNull => true | _ => false end.

(** Own-property lookup; a missing property reads as [undefined]. *)
Fixpoint lookup (fields : list (string * jsval)) (p : string) : jsval :=
  match fields with
  | [] => JUndefined
  | (k, v) :: rest => if k =? p then v else lookup rest p
  end.

(** [String(v)], as a template literal computes it. *)
Fixpoint to_string (v : jsval) : string :=
  match v with
  | JUndefined => "undefined"
  | JNull => "null"
  | JBool true => "true"
  | JBool false => "false"
  | JNum n => NilZero.string_of_int (Z.to_int n)
  | JStr s => s
  | JArr l =>
      (fix join (l : list jsval) : string :=
         match l with
         | [] => ""
         | x :: rest =>
             let sx := match x with
                       | JUndefined | JNull => ""
                       | _ => to_string x
                       end in
             match rest with
             | [] => sx
             | _ :: _ => sx +++ "," +++ join rest
             end
         end) l
  | JObj _ => "[object Object]"
  end.

(** [s.includes(sub)] on strings. *)
Fixpoint includes (s sub : string) : bool :=
  String.prefix sub s ||
  match s with
  | EmptyString => false
  | String _ s' => includes s' sub
  end.

(** A normal or an abrupt (thrown) completion. *)
Inductive completion (A : Type) : Type :=
| Normal (a : A)
| Abrupt (e : jsval).
Arguments Normal {A} a.
Arguments Abrupt {A} e.

(** What the runtime throws: an [Error] object carrying its message. *)
Definition type_error (msg : string) : jsval :=
  JObj [("name", JStr "TypeError"); ("message", JStr msg)].

Definition cannot_read (v : jsval) (p : string) : jsval :=
  type_error ("Cannot read properties of " +++ to_string v +++
              " (reading '" +++ p +++ "')").

Definition not_a_function (what : string) : jsval :=
  type_error (what +++ " is not a function").

(** [v.p]: reading a property of [undefined] or [null] throws. *)
Definition get_prop (v : jsval) (p : string) : completion jsval :=
  match v with
  | JUndefined | JNull => Abrupt (cannot_read v p)
  | JObj fields => Normal (lookup fields p)
  | JArr l =>
      Normal (if p =? "length" then JNum (Z.of_nat (List.length l))
              else JUndefined)
  | JStr s =>
      Normal (if p =? "length" then JNum (Z.of_nat (String.length s))
              else JUndefined)
  | JBool _ | JNum _ => Normal JUndefined
  end.

(** [v.includes(needle)] for a string needle: substring search on a string,
    membership on an array, a TypeError on anything else. *)
Definition js_includes (name : string) (v : jsval) (needle : string)
  : completion bool :=
  match v with
  | JStr s => Normal (includes s needle)
  | JArr l =>
      Normal (existsb (fun x => match x with
                                | JStr t => t =? needle
                                | _ => false
                                end) l)
  | JUndefined | JNull => Abrupt (cannot_read v "includes")
  | JBool _ | JNum _ | JObj _ => Abrupt (not_a_function (name +++ ".includes"))
  end.

End JS.
Export JS.

(** ** Effects, programs and their runs *)

Module Eff.

(** A client handle: the n-th object built by [new Client(..)]. *)
Definition handle := nat.

(** What a handler asks of its environment.  [ClientCall] and [ObjCall] are
    the method calls on the client handle and on the chat and message
    objects it resolved; [ClientGet] reads a property of the client; [New]
    runs one of the library's constructors; [Builtin] is the Node runtime
    (clock, file system, [parseInt]). *)
Inductive effect : Type :=
| New (cls : string) (args : list jsval)
| ClientCall (h : handle) (method : string) (args : list jsval)
| ClientGet (h : handle) (prop : string)
| ObjCall (recv : jsval) (method : string) (args : list jsval)
| Builtin (name : string) (args : list jsval).

(** The environment either returns a value or throws one. *)
Inductive outcome : Type :=
| Returned (v : jsval)
| Threw (e : jsval).

Definition event : Type := effect * outcome.
Definition trace : Type := list event.

(** The environment: it answers an effect knowing what happened before. *)
Definition oracle : Type := trace -> effect -> outcome.

(** The body of a handler: it returns, throws, or awaits an effect and goes
    on with the value.  A throw, the program's own or the environment's,
    ends the body: no handler has a [try] inside its [try]. *)
Inductive prog (A : Type) : Type :=
| Ret (a : A)
| Throw (e : jsval)
| Call (eff : effect) (k : jsval -> prog A).
Arguments Ret {A} a.
Arguments Throw {A} e.
Arguments Call {A} eff k.

Fixpoint bind {A B : Type} (p : prog A) (f : A -> prog B) : prog B :=
  match p with
  | Ret a => f a
  | Throw e => Throw e
  | Call eff k => Call eff (fun v => bind (k v) f)
  end.

(** [await eff] *)
Definition await (eff : effect) : prog jsval := Call eff Ret.

Definition lift {A : Type} (c : completion A) : prog A :=
  match c with
  | Normal a => Ret a
  | Abrupt e => Throw e
  end.

(** [run o past p]: the events [p] adds after [past], and how it completes. *)
Fixpoint run {A : Type} (o : oracle) (past : trace) (p : prog A)
  : trace * completion A :=
  match p with
  | Ret a => ([], Normal a)
  | Throw e => ([], Abrupt e)
  | Call eff k =>
      match o past eff with
      | Returned v =>
          let (t, c) := run o (past ++ [(eff, Returned v)]) (k v) in
          ((eff, Returned v) :: t, c)
      | Threw e => ([(eff, Threw e)], Abrupt e)
      end
  end.

(** [try { body } catch (error) { handler }] around a whole body. *)
Definition run_try {A : Type} (o : oracle) (past : trace)
    (body : prog A) (handler : jsval -> prog A) : trace * completion A :=
  match run o past body with
  | (t, Normal a) => (t, Normal a)
  | (t, Abrupt e) =>
      let (t', c) := run o (past ++ t) (handler e) in (t ++ t', c)
  end.

(** Method calls on the library: on the client or on an object it gave. *)
Definition is_method_call (ev : event) : bool :=
  match fst ev with
  | ClientCall _ _ _ | ObjCall _ _ _ => true
  | New _ _ | ClientGet _ _ | Builtin _ _ => false
  end.

Definition threw (ev : event) : bool :=
  match snd ev with
  | Threw _ => true
  | Returned _ => false
  end.

End Eff.
Export Eff.

Declare Scope prog_scope.
Delimit Scope prog_scope with prog.
Notation "x <- p ;; q" := (bind p (fun x => q))
  (at level 61, p at next level, right associativity) : prog_scope.
Notation "p ;; q" := (bind p (fun _ => q))
  (at level 61, right associativity) : prog_scope.
Local Open Scope prog_scope.

(** ** Requests, responses and the helpers the handlers share *)

(** [req.file], as multer's [upload.single('media')] leaves it. *)
Record upload : Type := {
  file_path : string;
  file_mimetype : string;
  file_originalname : string
}.

(** A parsed request: [express.json()] and [express.urlencoded()] leave
    [req.body] an object, the router fills [req.params], the query string
    fills [req.query]. *)
Record request : Type := {
  req_body : list (string * jsval);
  req_params : list (string * jsval);
  req_query : list (string * jsval);
  req_file : option upload
}.

(** [res.status(code).json(body)]; [res.json(body)] keeps status 200. *)
Record response : Type := {
  res_status : Z;
  res_body : jsval
}.

Definition res_json (body : jsval) : prog response :=
  Ret {| res_status := 200; res_body := body |}.

Definition res_status_json (code : Z) (body : jsval) : prog response :=
  Ret {| res_status := code; res_body := body |}.

(** [{ error: msg }] and [{ success: true }] *)
Definition error_body (msg : jsval) : jsval := JObj [("error", msg)].
Definition success : jsval := JObj [("success", JBool true)].

(** [const { name } = req.body] and [const { name = dflt } = req.body]: the
    default is taken when the property is [undefined]. *)
Definition field (req : request) (name : string) : jsval :=
  lookup (req_body req) name.

Definition with_default (v dflt : jsval) : jsval :=
  if is_undefined v then dflt else v.

Definition param (req : request) (name : string) : jsval :=
  lookup (req_params req) name.

(** [!v] *)
Definition js_not (v : jsval) : bool := negb (truthy v).

(** [v.p] inside a body. *)
Definition prop (v : jsval) (p : string) : prog jsval := lift (get_prop v p).

(** [await client.method(args)], [client] being the global's value when the
    handler starts: every handler reads it before its first [await]. *)
Definition client_call (client : option handle) (method : string)
    (args : list jsval) : prog jsval :=
  match client with
  | Some h => await (ClientCall h method args)
  | None => Throw (cannot_read JUndefined method)
  end.

(** [client.prop] *)
Definition client_get (client : option handle) (p : string) : prog jsval :=
  match client with
  | Some h => await (ClientGet h p)
  | None => Throw (cannot_read JUndefined p)
  end.

(** Looking a method up on [undefined] or [null] throws before any call. *)
Definition receiver (recv : jsval) (method : string) : prog unit :=
  if nullish recv then Throw (cannot_read recv method) else Ret tt.

(** [await recv.method(args)] on an object the library returned. *)
Definition method_call (recv : jsval) (method : string) (args : list jsval)
  : prog jsval :=
  receiver recv method ;; await (ObjCall recv method args).

(** [x.includes('@c.us') ? x : `${x}@c.us`] *)
Definition format_chat_id (name : string) (x : jsval) : prog jsval :=
  b <- lift (js_includes name x "@c.us") ;;
  Ret (if b : bool then x else JStr (to_string x +++ "@c.us")).

Fixpoint map_prog (f : jsval -> prog jsval) (l : list jsval)
  : prog (list jsval) :=
  match l with
  | [] => Ret []
  | x :: rest => y <- f x ;; ys <- map_prog f rest ;; Ret (y :: ys)
  end.

(** [v.map(f)]: defined on arrays. *)
Definition js_map (name : string) (v : jsval) (f : jsval -> prog jsval)
  : prog jsval :=
  match v with
  | JArr l => ys <- map_prog f l ;; Ret (JArr ys)
  | JUndefined | JNull => Throw (cannot_read v "map")
  | _ => Throw (not_a_function (name +++ ".map"))
  end.

Definition elements (v : jsval) : list jsval :=
  match v with JArr l => l | _ => [] end.

(** A route handler [async (req, res) => { try { body } catch (error)
    { handler } }]. *)
Record handler : Type := TryCatch {
  try_body : prog response;
  catch_body : jsval -> prog response
}.

(** The catch block every guarded handler has:
    [res.status(500).json({ error: error.message })]. *)
Definition catch_500 (error : jsval) : prog response :=
  m <- prop error "message" ;;
  res_status_json 500 (error_body m).

Definition try_ (body : prog response) : handler := TryCatch body catch_500.

(** What a request ends in: a response, or a promise rejected outside any
    [try] (then Express 4 sends nothing). *)
Inductive result : Type :=
| Responded (r : response)
| Rejected (e : jsval).

Definition run_handler (o : oracle) (h : handler) : trace * result :=
  match run_try o [] (try_body h) (catch_body h) with
  | (t, Normal r) => (t, Responded r)
  | (t, Abrupt e) => (t, Rejected e)
  end.

(** What became of a body's completion once the catch block has run. *)
Definition settle (c : completion response) : result :=
  match c with
  | Normal r => Responded r
  | Abrupt e =>
      match get_prop e "message" with
      | Normal m => Responded {| res_status := 500; res_body := error_body m |}
      | Abrupt e' => Rejected e'
      end
  end.

(** ** The guarded route handlers, in the order of the source

    [console.log] is not modelled.  Each definition is the body of one
    [app.get] or [app.post] handler; [client] is the value of the global. *)

Section Handlers.

Variable client : option handle.
Variable req : request.

(** [POST /send-message] *)
Definition post_send_message : handler :=
  try_ (
    let to := field req "to" in
    let message := field req "message" in
    if js_not to || js_not message then
      res_status_json 400 (error_body (JStr "to and message are required"))
    else
      chatId <- format_chat_id "to" to ;;
      result <- client_call client "sendMessage" [chatId; message] ;;
      id <- prop result "id" ;;
      serialized <- prop id "_serialized" ;;
      res_json (JObj [("success", JBool true); ("messageId", serialized)])).

(** [POST /reply-message] *)
Definition post_reply_message : handler :=
  try_ (
    let messageId := field req "messageId" in
    let reply := field req "reply" in
    if js_not messageId || js_not reply then
      res_status_json 400 (error_body (JStr "messageId and reply are required"))
    else
      message <- client_call client "getMessageById" [messageId] ;;
      method_call message "reply" [reply] ;;
      res_json success).

(** [POST /set-subject] *)
Definition post_set_subject : handler :=
  try_ (
    let chatId := field req "chatId" in
    let subject := field req "subject" in
    if js_not chatId || js_not subject then
      res_status_json 400 (error_body (JStr "chatId and subject are required"))
    else
      chat <- client_call client "getChatById" [chatId] ;;
      isGroup <- prop chat "isGroup" ;;
      if js_not isGroup then
        res_status_json 400 (error_body (JStr "This can only be used in a group"))
      else
        method_call chat "setSubject" [subject] ;;
        res_json success).

(** [POST /set-description] *)
Definition post_set_description : handler :=
  try_ (
    let chatId := field req "chatId" in
    let description := field req "description" in
    if js_not chatId || js_not description then
      res_status_json 400
        (error_body (JStr "chatId and description are required"))
    else
      chat <- client_call client "getChatById" [chatId] ;;
      isGroup <- prop chat "isGroup" ;;
      if js_not isGroup then
        res_status_json 400 (error_body (JStr "This can only be used in a group"))
      else
        method_call chat "setDescription" [description] ;;
        res_json success).

(** [POST /leave-group] *)
Definition post_leave_group : handler :=
  try_ (
    let chatId := field req "chatId" in
    if js_not chatId then
      res_status_json 400 (error_body (JStr "chatId is required"))
    else
      chat <- client_call client "getChatById" [chatId] ;;
      isGroup <- prop chat "isGroup" ;;
      if js_not isGroup then
        res_status_json 400 (error_body (JStr "This can only be used in a group"))
      else
        method_call chat "leave" [] ;;
        res_json success).

(** [POST /join-group] *)
Definition post_join_group : handler :=
  try_ (
    let inviteCode := field req "inviteCode" in
    if js_not inviteCode then
      res_status_json 400 (error_body (JStr "inviteCode is required"))
    else
      client_call client "acceptInvite" [inviteCode] ;;
      res_json success).

(** [POST /add-members] *)
Definition post_add_members : handler :=
  try_ (
    let chatId := field req "chatId" in
    let participants := field req "participants" in
    if js_not chatId || js_not participants || negb (isArray participants) then
      res_status_json 400
        (error_body (JStr "chatId and participants array are required"))
    else
      group <- client_call client "getChatById" [chatId] ;;
      formattedParticipants <-
        js_map "participants" participants (format_chat_id "p") ;;
      result <- method_call group "addParticipants" [formattedParticipants] ;;
      res_json (JObj [("success", JBool true); ("result", result)])).

(** [POST /create-group] *)
Definition post_create_group : handler :=
  try_ (
    let title := field req "title" in
    let participants := field req "participants" in
    if js_not title || js_not participants || negb (isArray participants) then
      res_status_json 400
        (error_body (JStr "title and participants array are required"))
    else
      formattedParticipants <-
        js_map "participants" participants (format_chat_id "p") ;;
      result <- client_call client "createGroup" [title; formattedParticipants] ;;
      res_json (JObj [("success", JBool true); ("result", result)])).

(** [GET /group-info/:chatId] *)
Definition get_group_info : handler :=
  try_ (
    let chatId := param req "chatId" in
    chat <- client_call client "getChatById" [chatId] ;;
    isGroup <- prop chat "isGroup" ;;
    if js_not isGroup then
      res_status_json 400 (error_body (JStr "This can only be used in a group"))
    else
      name <- prop chat "name" ;;
      description <- prop chat "description" ;;
      createdAt <- prop chat "createdAt" ;;
      owner <- prop chat "owner" ;;
      user <- prop owner "user" ;;
      participants <- prop chat "participants" ;;
      participantCount <- prop participants "length" ;;
      res_json (JObj [("name", name); ("description", description);
                      ("createdAt", createdAt); ("owner", user);
                      ("participantCount", participantCount);
                      ("participants", participants)])).

(** The arrow function of [chats.map] in [GET /chats]. *)
Definition chat_summary (chat : jsval) : prog jsval :=
  id <- prop chat "id" ;;
  serialized <- prop id "_serialized" ;;
  name <- prop chat "name" ;;
  isGroup <- prop chat "isGroup" ;;
  unreadCount <- prop chat "unreadCount" ;;
  timestamp <- prop chat "timestamp" ;;
  Ret (JObj [("id", serialized); ("name", name); ("isGroup", isGroup);
             ("unreadCount", unreadCount); ("timestamp", timestamp)]).

(** [GET /chats] *)
Definition get_chats : handler :=
  try_ (
    chats <- client_call client "getChats" [] ;;
    chatList <- js_map "chats" chats chat_summary ;;
    count <- prop chats "length" ;;
    res_json (JObj [("count", count); ("chats", chatList)])).

(** [GET /info] *)
Definition get_info : handler :=
  try_ (
    info <- client_get client "info" ;;
    pushname <- prop info "pushname" ;;
    wid <- prop info "wid" ;;
    user <- prop wid "user" ;;
    platform <- prop info "platform" ;;
    res_json (JObj [("pushname", pushname); ("number", user);
                    ("platform", platform)])).

(** [POST /send-location] *)
Definition post_send_location : handler :=
  try_ (
    let to := field req "to" in
    let latitude := field req "latitude" in
    let longitude := field req "longitude" in
    let name := field req "name" in
    let address := field req "address" in
    let url := field req "url" in
    if js_not to || js_not latitude || js_not longitude then
      res_status_json 400
        (error_body (JStr "to, latitude, and longitude are required"))
    else
      chatId <- format_chat_id "to" to ;;
      location <- await (New "Location"
                    [latitude; longitude;
                     JObj [("name", name); ("address", address); ("url", url)]]) ;;
      client_call client "sendMessage" [chatId; location] ;;
      res_json success).

(** [POST /set-status] *)
Definition post_set_status : handler :=
  try_ (
    let status := field req "status" in
    if js_not status then
      res_status_json 400 (error_body (JStr "status is required"))
    else
      client_call client "setStatus" [status] ;;
      res_json success).

(** [POST /mention-users] *)
Definition post_mention_users : handler :=
  try_ (
    let chatId := field req "chatId" in
    let message := field req "message" in
    let mentions := field req "mentions" in
    if js_not chatId || js_not message || js_not mentions
       || negb (isArray mentions) then
      res_status_json 400
        (error_body (JStr "chatId, message, and mentions array are required"))
    else
      chat <- client_call client "getChatById" [chatId] ;;
      formattedMentions <- js_map "mentions" mentions (format_chat_id "m") ;;
      method_call chat "sendMessage"
        [message; JObj [("mentions", formattedMentions)]] ;;
      res_json success).

(** [POST /mention-groups] *)
Definition post_mention_groups : handler :=
  try_ (
    let chatId := field req "chatId" in
    let message := field req "message" in
    let groupMentions := field req "groupMentions" in
    if js_not chatId || js_not message || js_not groupMentions then
      res_status_json 400
        (error_body (JStr "chatId, message, and groupMentions are required"))
    else
      chat <- client_call client "getChatById" [chatId] ;;
      method_call chat "sendMessage"
        [message; JObj [("groupMentions", groupMentions)]] ;;
      res_json success).

(** [POST /delete-message] *)
Definition post_delete_message : handler :=
  try_ (
    let messageId := field req "messageId" in
    let forEveryone := with_default (field req "forEveryone") (JBool true) in
    if js_not messageId then
      res_status_json 400 (error_body (JStr "messageId is required"))
    else
      message <- client_call client "getMessageById" [messageId] ;;
      fromMe <- prop message "fromMe" ;;
      if js_not fromMe then
        res_status_json 400 (error_body (JStr "Can only delete own messages"))
      else
        method_call message "delete" [forEveryone] ;;
        res_json success).

(** The handlers that resolve a chat and call one method on it with fixed
    arguments differ in the method only; [POST /pin-chat] is
    [chat_action "pin" []]. *)
Definition chat_action (method : string) (args : list jsval) : handler :=
  try_ (
    let chatId := field req "chatId" in
    if js_not chatId then
      res_status_json 400 (error_body (JStr "chatId is required"))
    else
      chat <- client_call client "getChatById" [chatId] ;;
      method_call chat method args ;;
      res_json success).

(** [POST /pin-chat], [POST /archive-chat] *)
Definition post_pin_chat : handler := chat_action "pin" [].
Definition post_archive_chat : handler := chat_action "archive" [].

(** [POST /mute-chat]: [new Date()] moved [duration] seconds ahead is the
    clock's answer. *)
Definition post_mute_chat : handler :=
  try_ (
    let chatId := field req "chatId" in
    let duration := with_default (field req "duration") (JNum 20) in
    if js_not chatId then
      res_status_json 400 (error_body (JStr "chatId is required"))
    else
      chat <- client_call client "getChatById" [chatId] ;;
      unmuteDate <- await (Builtin "Date.setSeconds" [duration]) ;;
      method_call chat "mute" [unmuteDate] ;;
      res_json success).

(** [POST /send-typing], [POST /send-recording], [POST /clear-state] *)
Definition post_send_typing : handler := chat_action "sendStateTyping" [].
Definition post_send_recording : handler := chat_action "sendStateRecording" [].
Definition post_clear_state : handler := chat_action "clearState" [].

(** [POST /send-buttons] *)
Definition post_send_buttons : handler :=
  try_ (
    let to := field req "to" in
    let body := field req "body" in
    let buttons := field req "buttons" in
    let title := field req "title" in
    let footer := field req "footer" in
    if js_not to || js_not body || js_not buttons || negb (isArray buttons) then
      res_status_json 400
        (error_body (JStr "to, body, and buttons array are required"))
    else
      chatId <- format_chat_id "to" to ;;
      buttonObj <- await (New "Buttons" [body; buttons; title; footer]) ;;
      client_call client "sendMessage" [chatId; buttonObj] ;;
      res_json success).

(** [POST /send-list] *)
Definition post_send_list : handler :=
  try_ (
    let to := field req "to" in
    let body := field req "body" in
    let buttonText := field req "buttonText" in
    let sections := field req "sections" in
    let title := field req "title" in
    let footer := field req "footer" in
    if js_not to || js_not body || js_not buttonText || js_not sections
       || negb (isArray sections) then
      res_status_json 400
        (error_body
           (JStr "to, body, buttonText, and sections array are required"))
    else
      chatId <- format_chat_id "to" to ;;
      list <- await (New "List" [body; buttonText; sections; title; footer]) ;;
      client_call client "sendMessage" [chatId; list] ;;
      res_json success).

(** [POST /send-reaction] *)
Definition post_send_reaction : handler :=
  try_ (
    let messageId := field req "messageId" in
    let reaction := field req "reaction" in
    if js_not messageId || js_not reaction then
      res_status_json 400
        (error_body (JStr "messageId and reaction are required"))
    else
      message <- client_call client "getMessageById" [messageId] ;;
      method_call message "react" [reaction] ;;
      res_json success).

(** [POST /send-poll] *)
Definition post_send_poll : handler :=
  try_ (
    let to := field req "to" in
    let question := field req "question" in
    let options := field req "options" in
    let allowMultipleAnswers :=
      with_default (field req "allowMultipleAnswers") (JBool false) in
    let messageSecret := field req "messageSecret" in
    if js_not to || js_not question || js_not options
       || negb (isArray options) then
      res_status_json 400
        (error_body (JStr "to, question, and options array are required"))
    else
      chatId <- format_chat_id "to" to ;;
      let pollOptions :=
        JObj (("allowMultipleAnswers", allowMultipleAnswers) ::
              (if truthy messageSecret
               then [("messageSecret", messageSecret)] else [])) in
      poll <- await (New "Poll" [question; options; pollOptions]) ;;
      client_call client "sendMessage" [chatId; poll] ;;
      res_json success).

(** [POST /edit-message] *)
Definition post_edit_message : handler :=
  try_ (
    let messageId := field req "messageId" in
    let newText := field req "newText" in
    if js_not messageId || js_not newText then
      res_status_json 400
        (error_body (JStr "messageId and newText are required"))
    else
      message <- client_call client "getMessageById" [messageId] ;;
      fromMe <- prop message "fromMe" ;;
      if js_not fromMe then
        res_status_json 400 (error_body (JStr "Can only edit own messages"))
      else
        method_call message "edit" [newText] ;;
        res_json success).

(** [POST /update-labels] *)
Definition post_update_labels : handler :=
  try_ (
    let chatId := field req "chatId" in
    let labelIds := field req "labelIds" in
    if js_not chatId || js_not labelIds || negb (isArray labelIds) then
      res_status_json 400
        (error_body (JStr "chatId and labelIds array are required"))
    else
      chat <- client_call client "getChatById" [chatId] ;;
      method_call chat "changeLabels" [labelIds] ;;
      res_json success).

(** [POST /add-labels]: [labels.push(...newLabelIds)] appends in place. *)
Definition post_add_labels : handler :=
  try_ (
    let chatId := field req "chatId" in
    let newLabelIds := field req "newLabelIds" in
    if js_not chatId || js_not newLabelIds || negb (isArray newLabelIds) then
      res_status_json 400
        (error_body (JStr "chatId and newLabelIds array are required"))
    else
      chat <- client_call client "getChatById" [chatId] ;;
      current <- method_call chat "getLabels" [] ;;
      labels <- js_map "(intermediate value)" current (fun l => prop l "id") ;;
      let labels := JArr (elements labels ++ elements newLabelIds) in
      method_call chat "changeLabels" [labels] ;;
      res_json success).

(** [POST /remove-labels] *)
Definition post_remove_labels : handler := chat_action "changeLabels" [JArr []].

(** The [options] object of the two membership-request handlers. *)
Definition request_options (requesterIds sleep : jsval) : jsval :=
  JObj ((if truthy requesterIds then [("requesterIds", requesterIds)] else [])
        ++ (if negb (is_undefined sleep) then [("sleep", sleep)] else [])).

(** [POST /approve-request] and [POST /reject-request] differ in the client
    method. *)
Definition membership_request (method : string) : handler :=
  try_ (
    let chatId := field req "chatId" in
    let requesterIds := field req "requesterIds" in
    let sleep := field req "sleep" in
    if js_not chatId then
      res_status_json 400 (error_body (JStr "chatId is required"))
    else
      let options := request_options requesterIds sleep in
      result <- client_call client method [chatId; options] ;;
      res_json (JObj [("success", JBool true); ("result", result)])).

Definition post_approve_request : handler :=
  membership_request "approveGroupMembershipRequests".
Definition post_reject_request : handler :=
  membership_request "rejectGroupMembershipRequests".

(** [POST /pin-message] *)
Definition post_pin_message : handler :=
  try_ (
    let messageId := field req "messageId" in
    let duration := with_default (field req "duration") (JNum 86400) in
    if js_not messageId then
      res_status_json 400 (error_body (JStr "messageId is required"))
    else
      message <- client_call client "getMessageById" [messageId] ;;
      result <- method_call message "pin" [duration] ;;
      res_json (JObj [("success", JBool true); ("result", result)])).

(** [POST /unpin-message] *)
Definition post_unpin_message : handler :=
  try_ (
    let messageId := field req "messageId" in
    if js_not messageId then
      res_status_json 400 (error_body (JStr "messageId is required"))
    else
      message <- client_call client "getMessageById" [messageId] ;;
      result <- method_call message "unpin" [] ;;
      res_json (JObj [("success", JBool true); ("result", result)])).

(** [GET /device-count/:contactId] *)
Definition get_device_count : handler :=
  try_ (
    let contactId := param req "contactId" in
    deviceCount <- client_call client "getContactDeviceCount" [contactId] ;;
    res_json (JObj [("deviceCount", deviceCount)])).

(** [POST /sync-history] *)
Definition post_sync_history : handler :=
  try_ (
    let chatId := field req "chatId" in
    if js_not chatId then
      res_status_json 400 (error_body (JStr "chatId is required"))
    else
      isSynced <- client_call client "syncHistory" [chatId] ;;
      res_json (JObj [("success", JBool true); ("isSynced", isSynced)])).

(** [GET /statuses] *)
Definition get_statuses : handler :=
  try_ (
    statuses <- client_call client "getBroadcasts" [] ;;
    res_json (JObj [("statuses", statuses)])).

(** [POST /send-media], after [upload.single('media')] *)
Definition post_send_media : handler :=
  try_ (
    let to := field req "to" in
    let caption := field req "caption" in
    let sendMediaAsHd := with_default (field req "sendMediaAsHd") (JBool false) in
    let isViewOnce := with_default (field req "isViewOnce") (JBool false) in
    let sendAudioAsVoice :=
      with_default (field req "sendAudioAsVoice") (JBool false) in
    match req_file req with
    | None =>
        res_status_json 400 (error_body (JStr "to and media file are required"))
    | Some file =>
        if js_not to then
          res_status_json 400
            (error_body (JStr "to and media file are required"))
        else
          chatId <- format_chat_id "to" to ;;
          mediaData <- await (Builtin "fs.readFileSync"
                                [JStr (file_path file)]) ;;
          let options :=
            JObj [("caption", caption); ("sendMediaAsHd", sendMediaAsHd);
                  ("isViewOnce", isViewOnce);
                  ("sendAudioAsVoice", sendAudioAsVoice)] in
          receiver mediaData "toString" ;;
          data <- await (Builtin "Buffer.toString" [mediaData; JStr "base64"]) ;;
          let mediaMessage :=
            JObj [("mimetype", JStr (file_mimetype file)); ("data", data);
                  ("filename", JStr (file_originalname file))] in
          client_call client "sendMessage" [chatId; mediaMessage; options] ;;
          await (Builtin "fs.unlinkSync" [JStr (file_path file)]) ;;
          res_json success
    end).

(** [POST /send-vcard] *)
Definition post_send_vcard : handler :=
  try_ (
    let to := field req "to" in
    let vCard := field req "vCard" in
    if js_not to || js_not vCard then
      res_status_json 400 (error_body (JStr "to and vCard are required"))
    else
      chatId <- format_chat_id "to" to ;;
      client_call client "sendMessage" [chatId; vCard] ;;
      res_json success).

(** [POST /change-sync] *)
Definition post_change_sync : handler :=
  try_ (
    let enabled := with_default (field req "enabled") (JBool true) in
    backgroundSync <- client_call client "setBackgroundSync" [enabled] ;;
    res_json (JObj [("success", JBool true);
                    ("backgroundSync", backgroundSync)])).

(** [GET /download-media/:messageId] *)
Definition get_download_media : handler :=
  try_ (
    let messageId := param req "messageId" in
    message <- client_call client "getMessageById" [messageId] ;;
    hasMedia <- prop message "hasMedia" ;;
    if js_not hasMedia then
      res_status_json 400 (error_body (JStr "Message does not have media"))
    else
      media <- method_call message "downloadMedia" [] ;;
      mimetype <- prop media "mimetype" ;;
      filename <- prop media "filename" ;;
      data <- prop media "data" ;;
      dataLength <- prop data "length" ;;
      res_json (JObj [("mimetype", mimetype); ("filename", filename);
                      ("data", data); ("dataLength", dataLength)])).

(** [GET /message-info/:messageId] *)
Definition get_message_info : handler :=
  try_ (
    let messageId := param req "messageId" in
    message <- client_call client "getMessageById" [messageId] ;;
    id <- prop message "id" ;;
    serialized <- prop id "_serialized" ;;
    body <- prop message "body" ;;
    type <- prop message "type" ;;
    timestamp <- prop message "timestamp" ;;
    from <- prop message "from" ;;
    to <- prop message "to" ;;
    author <- prop message "author" ;;
    fromMe <- prop message "fromMe" ;;
    hasMedia <- prop message "hasMedia" ;;
    hasQuotedMsg <- prop message "hasQuotedMsg" ;;
    isForwarded <- prop message "isForwarded" ;;
    isStatus <- prop message "isStatus" ;;
    isStarred <- prop message "isStarred" ;;
    broadcast <- prop message "broadcast" ;;
    res_json (JObj [("id", serialized); ("body", body); ("type", type);
                    ("timestamp", timestamp); ("from", from); ("to", to);
                    ("author", author); ("fromMe", fromMe);
                    ("hasMedia", hasMedia); ("hasQuotedMsg", hasQuotedMsg);
                    ("isForwarded", isForwarded); ("isStatus", isStatus);
                    ("isStarred", isStarred); ("broadcast", broadcast)])).

(** [GET /quoted-message/:messageId] *)
Definition get_quoted_message : handler :=
  try_ (
    let messageId := param req "messageId" in
    message <- client_call client "getMessageById" [messageId] ;;
    hasQuotedMsg <- prop message "hasQuotedMsg" ;;
    if js_not hasQuotedMsg then
      res_status_json 400
        (error_body (JStr "Message does not have quoted message"))
    else
      quotedMsg <- method_call message "getQuotedMessage" [] ;;
      id <- prop quotedMsg "id" ;;
      serialized <- prop id "_serialized" ;;
      type <- prop quotedMsg "type" ;;
      author <- prop quotedMsg "author" ;;
      author <- (if truthy author then Ret author else prop quotedMsg "from") ;;
      timestamp <- prop quotedMsg "timestamp" ;;
      hasMedia <- prop quotedMsg "hasMedia" ;;
      body <- prop quotedMsg "body" ;;
      res_json (JObj [("id", serialized); ("type", type); ("author", author);
                      ("timestamp", timestamp); ("hasMedia", hasMedia);
                      ("body", body)])).

(** [POST /jump-to-message] *)
Definition post_jump_to_message : handler :=
  try_ (
    let messageId := field req "messageId" in
    if js_not messageId then
      res_status_json 400 (error_body (JStr "messageId is required"))
    else
      interface <- client_get client "interface" ;;
      method_call interface "openChatWindowAt" [messageId] ;;
      res_json success).

(** The arrow function of [contacts.map] in [GET /contacts]. *)
Definition contact_summary (contact : jsval) : prog jsval :=
  id <- prop contact "id" ;;
  serialized <- prop id "_serialized" ;;
  name <- prop contact "name" ;;
  pushname <- prop contact "pushname" ;;
  number <- prop contact "number" ;;
  isMe <- prop contact "isMe" ;;
  isUser <- prop contact "isUser" ;;
  isGroup <- prop contact "isGroup" ;;
  isWAContact <- prop contact "isWAContact" ;;
  isMyContact <- prop contact "isMyContact" ;;
  isBlocked <- prop contact "isBlocked" ;;
  Ret (JObj [("id", serialized); ("name", name); ("pushname", pushname);
             ("number", number); ("isMe", isMe); ("isUser", isUser);
             ("isGroup", isGroup); ("isWAContact", isWAContact);
             ("isMyContact", isMyContact); ("isBlocked", isBlocked)]).

(** [GET /contacts] *)
Definition get_contacts : handler :=
  try_ (
    contacts <- client_call client "getContacts" [] ;;
    contactList <- js_map "contacts" contacts contact_summary ;;
    res_json (JObj [("contacts", contactList)])).

(** [chat.isGroup ? chat.p : undefined] *)
Definition group_only (chat : jsval) (p : string) : prog jsval :=
  isGroup <- prop chat "isGroup" ;;
  if truthy isGroup then prop chat p else Ret JUndefined.

(** [GET /chat/:chatId] *)
Definition get_chat : handler :=
  try_ (
    let chatId := param req "chatId" in
    chat <- client_call client "getChatById" [chatId] ;;
    id <- prop chat "id" ;;
    serialized <- prop id "_serialized" ;;
    name <- prop chat "name" ;;
    isGroup <- prop chat "isGroup" ;;
    isReadOnly <- prop chat "isReadOnly" ;;
    unreadCount <- prop chat "unreadCount" ;;
    timestamp <- prop chat "timestamp" ;;
    archived <- prop chat "archived" ;;
    pinned <- prop chat "pinned" ;;
    isMuted <- prop chat "isMuted" ;;
    muteExpiration <- prop chat "muteExpiration" ;;
    participants <- group_only chat "participants" ;;
    description <- group_only chat "description" ;;
    owner <- group_only chat "owner" ;;
    createdAt <- group_only chat "createdAt" ;;
    res_json (JObj [("id", serialized); ("name", name); ("isGroup", isGroup);
                    ("isReadOnly", isReadOnly); ("unreadCount", unreadCount);
                    ("timestamp", timestamp); ("archived", archived);
                    ("pinned", pinned); ("isMuted", isMuted);
                    ("muteExpiration", muteExpiration);
                    ("participants", participants);
                    ("description", description); ("owner", owner);
                    ("createdAt", createdAt)])).

(** The arrow function of [messages.map] in [GET /messages/:chatId]. *)
Definition message_summary (msg : jsval) : prog jsval :=
  id <- prop msg "id" ;;
  serialized <- prop id "_serialized" ;;
  body <- prop msg "body" ;;
  type <- prop msg "type" ;;
  timestamp <- prop msg "timestamp" ;;
  from <- prop msg "from" ;;
  to <- prop msg "to" ;;
  author <- prop msg "author" ;;
  fromMe <- prop msg "fromMe" ;;
  hasMedia <- prop msg "hasMedia" ;;
  hasQuotedMsg <- prop msg "hasQuotedMsg" ;;
  Ret (JObj [("id", serialized); ("body", body); ("type", type);
             ("timestamp", timestamp); ("from", from); ("to", to);
             ("author", author); ("fromMe", fromMe); ("hasMedia", hasMedia);
             ("hasQuotedMsg", hasQuotedMsg)]).

(** [GET /messages/:chatId]: the method is looked up on [chat] before the
    argument [parseInt(limit)] is evaluated. *)
Definition get_messages : handler :=
  try_ (
    let chatId := param req "chatId" in
    let limit := with_default (lookup (req_query req) "limit") (JNum 50) in
    chat <- client_call client "getChatById" [chatId] ;;
    receiver chat "fetchMessages" ;;
    n <- await (Builtin "parseInt" [limit]) ;;
    messages <- await (ObjCall chat "fetchMessages" [JObj [("limit", n)]]) ;;
    messageList <- js_map "messages" messages message_summary ;;
    res_json (JObj [("messages", messageList)])).

(** [POST /send-preview] *)
Definition post_send_preview : handler :=
  try_ (
    let to := field req "to" in
    let text := field req "text" in
    if js_not to || js_not text then
      res_status_json 400 (error_body (JStr "to and text are required"))
    else
      chatId <- format_chat_id "to" to ;;
      client_call client "sendMessage"
        [chatId; text; JObj [("linkPreview", JBool true)]] ;;
      res_json success).

End Handlers.

(** ** The globals, [initializeClient] and the lifecycle listeners *)

(** The events [initializeClient] registers a listener for, as it orders
    them. *)
Inductive lifecycle : Type :=
| loading_screen | qr | code | authenticated
| auth_failure | ready | message | disconnected.

Definition lifecycle_name (ev : lifecycle) : string :=
  match ev with
  | loading_screen => "loading_screen"
  | qr => "qr"
  | code => "code"
  | authenticated => "authenticated"
  | auth_failure => "auth_failure"
  | ready => "ready"
  | message => "message"
  | disconnected => "disconnected"
  end.

Definition lifecycle_eqb (a b : lifecycle) : bool :=
  lifecycle_name a =? lifecycle_name b.

(** [let client; let clientReady = false;] together with what the model
    keeps of the library: how many clients were built, and which listeners
    each of them carries. *)
Record state : Type := {
  client : option handle;
  clientReady : bool;
  built : nat;
  listeners : list (handle * lifecycle)
}.

Definition initial : state :=
  {| client := None; clientReady := false; built := 0; listeners := [] |}.

Definition set_client (h : handle) (s : state) : state :=
  {| client := Some h; clientReady := clientReady s;
     built := S (built s); listeners := listeners s |}.

Definition set_clientReady (b : bool) (s : state) : state :=
  {| client := client s; clientReady := b;
     built := built s; listeners := listeners s |}.

Definition add_listener (h : handle) (ev : lifecycle) (s : state) : state :=
  {| client := client s; clientReady := clientReady s;
     built := built s; listeners := listeners s ++ [(h, ev)] |}.

Definition listening (s : state) (h : handle) (ev : lifecycle) : bool :=
  existsb (fun l => Nat.eqb (fst l) h && lifecycle_eqb (snd l) ev)
          (listeners s).

(** Code that reads and assigns the globals between its effects. *)
Inductive gprog (A : Type) : Type :=
| GRet (a : A)
| GThrow (e : jsval)
| GCall (eff : effect) (k : jsval -> gprog A)
| GRead (k : state -> gprog A)
| GWrite (f : state -> state) (k : gprog A).
Arguments GRet {A} a.
Arguments GThrow {A} e.
Arguments GCall {A} eff k.
Arguments GRead {A} k.
Arguments GWrite {A} f k.

Fixpoint gbind {A B : Type} (p : gprog A) (f : A -> gprog B) : gprog B :=
  match p with
  | GRet a => f a
  | GThrow e => GThrow e
  | GCall eff k => GCall eff (fun v => gbind (k v) f)
  | GRead k => GRead (fun s => gbind (k s) f)
  | GWrite w k => GWrite w (gbind k f)
  end.

Fixpoint run_g {A : Type} (o : oracle) (past : trace) (s : state)
    (p : gprog A) : trace * state * completion A :=
  match p with
  | GRet a => ([], s, Normal a)
  | GThrow e => ([], s, Abrupt e)
  | GCall eff k =>
      match o past eff with
      | Returned v =>
          let '(t, s', c) := run_g o (past ++ [(eff, Returned v)]) s (k v) in
          ((eff, Returned v) :: t, s', c)
      | Threw e => ([(eff, Threw e)], s, Abrupt e)
      end
  | GRead k => run_g o past s (k s)
  | GWrite w k => run_g o past (w s) k
  end.

Declare Scope gprog_scope.
Delimit Scope gprog_scope with gprog.
Notation "x <- p ;; q" := (gbind p (fun x => q))
  (at level 61, p at next level, right associativity) : gprog_scope.
Notation "p ;; q" := (gbind p (fun _ => q))
  (at level 61, right associativity) : gprog_scope.

Definition gawait (eff : effect) : gprog jsval := GCall eff GRet.
Definition assign (w : state -> state) : gprog unit := GWrite w (GRet tt).

(** [client.on(name, listener)] for each event of the list, in order. *)
Fixpoint register (h : handle) (evs : list lifecycle) : gprog unit :=
  match evs with
  | [] => GRet tt
  | ev :: rest =>
      (gawait (ClientCall h "on" [JStr (lifecycle_name ev)]) ;;
       assign (add_listener h ev) ;;
       register h rest)%gprog
  end.

Definition consumed : list lifecycle :=
  [loading_screen; qr; code; authenticated;
   auth_failure; ready; message; disconnected].

(** [function initializeClient()]: the new client becomes the global, is
    started, and gets the eight listeners.  [client.initialize()] is not
    awaited: its outcome here is that of the call itself. *)
Definition initializeClient : gprog unit :=
  (auth <- gawait (New "LocalAuth" []) ;;
   gawait (New "Client"
             [JObj [("authStrategy", auth);
                    ("puppeteer", JObj [("headless", JBool false)])]]) ;;
   GRead (fun s =>
     let h := built s in
     assign (set_client h) ;;
     gawait (ClientCall h "initialize" []) ;;
     register h consumed))%gprog.

(** The listener bodies. *)
Definition listener (ev : lifecycle) : gprog unit :=
  match ev with
  | auth_failure | disconnected => assign (set_clientReady false)
  | ready =>
      (assign (set_clientReady true) ;;
       GRead (fun s =>
         match client s with
         | Some h => gawait (ClientCall h "getWWebVersion" []) ;; GRet tt
         | None => GThrow (cannot_read JUndefined "getWWebVersion")
         end))%gprog
  | loading_screen | qr | code | authenticated | message => GRet tt
  end.

(** Client [h] emits [ev]: its listener runs if [h] carries one.  What a
    listener throws is nobody's to catch. *)
Definition emit (o : oracle) (s : state) (h : handle) (ev : lifecycle)
  : trace * state :=
  if listening s h ev then fst (run_g o [] s (listener ev)) else ([], s).

(** ** The route table *)

Inductive route : Type :=
| GET_status | POST_initialize
| POST_send_message | POST_reply_message | POST_set_subject
| POST_set_description | POST_leave_group | POST_join_group
| POST_add_members | POST_create_group | GET_group_info | GET_chats
| GET_info | POST_send_location | POST_set_status | POST_mention_users
| POST_mention_groups | POST_delete_message | POST_pin_chat
| POST_archive_chat | POST_mute_chat | POST_send_typing
| POST_send_recording | POST_clear_state | POST_send_buttons
| POST_send_list | POST_send_reaction | POST_send_poll | POST_edit_message
| POST_update_labels | POST_add_labels | POST_remove_labels
| POST_approve_request | POST_reject_request | POST_pin_message
| POST_unpin_message | GET_device_count | POST_sync_history | GET_statuses
| POST_send_media | POST_send_vcard | POST_change_sync
| GET_download_media | GET_message_info | GET_quoted_message
| POST_jump_to_message | GET_contacts | GET_chat | GET_messages
| POST_send_preview.

Definition all_routes : list route :=
  [GET_status; POST_initialize;
   POST_send_message; POST_reply_message; POST_set_subject;
   POST_set_description; POST_leave_group; POST_join_group;
   POST_add_members; POST_create_group; GET_group_info; GET_chats;
   GET_info; POST_send_location; POST_set_status; POST_mention_users;
   POST_mention_groups; POST_delete_message; POST_pin_chat;
   POST_archive_chat; POST_mute_chat; POST_send_typing;
   POST_send_recording; POST_clear_state; POST_send_buttons;
   POST_send_list; POST_send_reaction; POST_send_poll; POST_edit_message;
   POST_update_labels; POST_add_labels; POST_remove_labels;
   POST_approve_request; POST_reject_request; POST_pin_message;
   POST_unpin_message; GET_device_count; POST_sync_history; GET_statuses;
   POST_send_media; POST_send_vcard; POST_change_sync;
   GET_download_media; GET_message_info; GET_quoted_message;
   POST_jump_to_message; GET_contacts; GET_chat; GET_messages;
   POST_send_preview].

(** How a route is mounted: a synchronous handler on its own, or
    [checkClientReady] followed by an async handler. *)
Inductive mount : Type :=
| Sync (p : gprog response)
| Guarded (h : option handle -> request -> handler).

(** [function checkClientReady(req, res, next)] *)
Definition checkClientReady (s : state) (next : trace * result)
  : trace * result :=
  if negb (clientReady s) then
    ([], Responded {| res_status := 503;
                      res_body := error_body (JStr "WhatsApp client not ready") |})
  else next.

(** The error-handling middleware, which Express runs when a synchronous
    handler throws. *)
Definition error_middleware (error : jsval) : response :=
  {| res_status := 500; res_body := error_body (JStr "Internal server error") |}.

(** [GET /status]; [new Date().toISOString()] is the clock's answer. *)
Definition get_status : gprog response :=
  GRead (fun s =>
    timestamp <- gawait (Builtin "Date.toISOString" []) ;;
    GRet {| res_status := 200;
            res_body := JObj [("ready", JBool (clientReady s));
                              ("timestamp", timestamp)] |})%gprog.

(** [POST /initialize] *)
Definition post_initialize : gprog response :=
  GRead (fun s =>
    if clientReady s then
      GRet {| res_status := 200;
              res_body := JObj [("message", JStr "Client already initialized")] |}
    else
      initializeClient ;;
      GRet {| res_status := 200;
              res_body :=
                JObj [("message", JStr "Client initialization started")] |})%gprog.

(** The [app.get] and [app.post] registrations. *)
Definition app (r : route) : mount :=
  match r with
  | GET_status => Sync get_status
  | POST_initialize => Sync post_initialize
  | POST_send_message => Guarded post_send_message
  | POST_reply_message => Guarded post_reply_message
  | POST_set_subject => Guarded post_set_subject
  | POST_set_description => Guarded post_set_description
  | POST_leave_group => Guarded post_leave_group
  | POST_join_group => Guarded post_join_group
  | POST_add_members => Guarded post_add_members
  | POST_create_group => Guarded post_create_group
  | GET_group_info => Guarded get_group_info
  | GET_chats => Guarded (fun client _ => get_chats client)
  | GET_info => Guarded (fun client _ => get_info client)
  | POST_send_location => Guarded post_send_location
  | POST_set_status => Guarded post_set_status
  | POST_mention_users => Guarded post_mention_users
  | POST_mention_groups => Guarded post_mention_groups
  | POST_delete_message => Guarded post_delete_message
  | POST_pin_chat => Guarded post_pin_chat
  | POST_archive_chat => Guarded post_archive_chat
  | POST_mute_chat => Guarded post_mute_chat
  | POST_send_typing => Guarded post_send_typing
  | POST_send_recording => Guarded post_send_recording
  | POST_clear_state => Guarded post_clear_state
  | POST_send_buttons => Guarded post_send_buttons
  | POST_send_list => Guarded post_send_list
  | POST_send_reaction => Guarded post_send_reaction
  | POST_send_poll => Guarded post_send_poll
  | POST_edit_message => Guarded post_edit_message
  | POST_update_labels => Guarded post_update_labels
  | POST_add_labels => Guarded post_add_labels
  | POST_remove_labels => Guarded post_remove_labels
  | POST_approve_request => Guarded post_approve_request
  | POST_reject_request => Guarded post_reject_request
  | POST_pin_message => Guarded post_pin_message
  | POST_unpin_message => Guarded post_unpin_message
  | GET_device_count => Guarded get_device_count
  | POST_sync_history => Guarded post_sync_history
  | GET_statuses => Guarded (fun client _ => get_statuses client)
  | POST_send_media => Guarded post_send_media
  | POST_send_vcard => Guarded post_send_vcard
  | POST_change_sync => Guarded post_change_sync
  | GET_download_media => Guarded get_download_media
  | GET_message_info => Guarded get_message_info
  | GET_quoted_message => Guarded get_quoted_message
  | POST_jump_to_message => Guarded post_jump_to_message
  | GET_contacts => Guarded (fun client _ => get_contacts client)
  | GET_chat => Guarded get_chat
  | GET_messages => Guarded get_messages
  | POST_send_preview => Guarded post_send_preview
  end.

(** A synchronous handler: what it throws goes to the error middleware. *)
Definition run_sync (o : oracle) (s : state) (p : gprog response)
  : state * (trace * result) :=
  match run_g o [] s p with
  | (t, s', Normal r) => (s', (t, Responded r))
  | (t, s', Abrupt e) => (s', (t, Responded (error_middleware e)))
  end.

(** One request served from state [s] against environment [o]: the state
    it leaves, the effects it had and how it ended. *)
Definition serve (o : oracle) (s : state) (r : route) (req : request)
  : state * (trace * result) :=
  match app r with
  | Sync p => run_sync o s p
  | Guarded h => (s, checkClientReady s (run_handler o (h (client s) req)))
  end.

(** The server's life: [initializeClient()] at start-up (a throw there ends
    the process), then requests and the events of the clients built. *)
Inductive reachable : state -> Prop :=
| reach_start (o : oracle) (t : trace) (s : state) :
    run_g o [] initial initializeClient = (t, s, Normal tt) ->
    reachable s
| reach_request (o : oracle) (s : state) (r : route) (req : request) :
    reachable s ->
    reachable (fst (serve o s r req))
| reach_emit (o : oracle) (s : state) (h : handle) (ev : lifecycle) :
    reachable s ->
    h < built s ->
    reachable (snd (emit o s h ev)).

(** ** Sample requests and environments *)

Definition mk_request (body : list (string * jsval)) : request :=
  {| req_body := body; req_params := []; req_query := []; req_file := None |}.

(** A state in which client 0 is the global and has reported ready. *)
Definition ready_state : state :=
  {| client := Some 0; clientReady := true; built := 1;
     listeners := map (fun ev => (0, ev)) consumed |}.

(** An environment in which every call returns [undefined]. *)
Definition quiet : oracle := fun _ _ => Returned JUndefined.

Definition not_ready : response :=
  {| res_status := 503;
     res_body := error_body (JStr "WhatsApp client not ready") |}.

(** ** Vocabulary of the statements *)

(** The flag after a consumed event, as the lifecycle contract words it. *)
Definition flag_after (ev : lifecycle) (before : bool) : bool :=
  match ev with
  | ready => true
  | auth_failure | disconnected => false
  | loading_screen | qr | code | authenticated | message => before
  end.

(** Code that never assigns [clientReady]. *)
Inductive keeps_flag {A : Type} : gprog A -> Prop :=
| kf_ret (a : A) : keeps_flag (GRet a)
| kf_throw (e : jsval) : keeps_flag (GThrow e)
| kf_call (eff : effect) (k : jsval -> gprog A) :
    (forall v, keeps_flag (k v)) -> keeps_flag (GCall eff k)
| kf_read (k : state -> gprog A) :
    (forall s, keeps_flag (k s)) -> keeps_flag (GRead k)
| kf_write (w : state -> state) (k : gprog A) :
    (forall s, clientReady (w s) = clientReady s) ->
    keeps_flag k -> keeps_flag (GWrite w k).

(** A state the server starts in: [initializeClient()] ran against [quiet]. *)
Definition started : state :=
  {| client := Some 0; clientReady := false; built := 1;
     listeners := map (fun ev => (0, ev)) consumed |}.

Definition an_error (msg : string) : jsval :=
  JObj [("name", JStr "Error"); ("message", JStr msg)].

(** An environment in which [new Client(..)] throws. *)
Definition launch_fails : oracle := fun _ eff =>
  match eff with
  | New "Client" _ => Threw (an_error "Failed to launch the browser process")
  | _ => Returned JUndefined
  end.

(** An environment in which [client.sendMessage] throws. *)
Definition send_fails : oracle := fun _ eff =>
  match eff with
  | ClientCall _ "sendMessage" _ => Threw (an_error "Evaluation failed")
  | _ => Returned JUndefined
  end.

Definition hello : request :=
  mk_request [("to", JStr "491701234567"); ("message", JStr "hello")].

(** The answer to a throw as the uniform error pattern words it: a 400 or a
    500 whose body echoes the message of what was thrown. *)
Definition echoes_throw (served : trace * result) : Prop :=
  forall eff e,
    In (eff, Threw e) (fst served) ->
    exists code m,
      (code = 400 \/ code = 500)%Z /\
      get_prop e "message" = Normal m /\
      snd served =
      Responded {| res_status := code; res_body := error_body m |}.

(** How a guarded handler answers once its catch block has [e]. *)
Definition caught (e : jsval) : result := settle (Abrupt e).

Definition send_failed : event :=
  (ClientCall 0 "sendMessage" [JStr "491701234567@c.us"; JStr "hello"],
   Threw (an_error "Evaluation failed")).

Definition evaluation_failed : result :=
  Responded {| res_status := 500;
               res_body := error_body (JStr "Evaluation failed") |}.

(** How a required body field is tested: [!v], or
    [!v || !Array.isArray(v)]. *)
Inductive field_kind : Type := Present | ArrayField.

Definition missing (k : field_kind) (v : jsval) : bool :=
  match k with
  | Present => js_not v
  | ArrayField => js_not v || negb (isArray v)
  end.

(** The body fields each route's handler tests before anything else. *)
Definition required_fields (r : route) : list (string * field_kind) :=
  match r with
  | POST_send_message => [("to", Present); ("message", Present)]
  | POST_reply_message => [("messageId", Present); ("reply", Present)]
  | POST_set_subject => [("chatId", Present); ("subject", Present)]
  | POST_set_description => [("chatId", Present); ("description", Present)]
  | POST_join_group => [("inviteCode", Present)]
  | POST_add_members => [("chatId", Present); ("participants", ArrayField)]
  | POST_create_group => [("title", Present); ("participants", ArrayField)]
  | POST_send_location =>
      [("to", Present); ("latitude", Present); ("longitude", Present)]
  | POST_set_status => [("status", Present)]
  | POST_mention_users =>
      [("chatId", Present); ("message", Present); ("mentions", ArrayField)]
  | POST_mention_groups =>
      [("chatId", Present); ("message", Present); ("groupMentions", Present)]
  | POST_send_buttons =>
      [("to", Present); ("body", Present); ("buttons", ArrayField)]
  | POST_send_list =>
      [("to", Present); ("body", Present); ("buttonText", Present);
       ("sections", ArrayField)]
  | POST_send_reaction => [("messageId", Present); ("reaction", Present)]
  | POST_send_poll =>
      [("to", Present); ("question", Present); ("options", ArrayField)]
  | POST_edit_message => [("messageId", Present); ("newText", Present)]
  | POST_update_labels => [("chatId", Present); ("labelIds", ArrayField)]
  | POST_add_labels => [("chatId", Present); ("newLabelIds", ArrayField)]
  | POST_send_media => [("to", Present)]
  | POST_send_vcard => [("to", Present); ("vCard", Present)]
  | POST_send_preview => [("to", Present); ("text", Present)]
  | POST_leave_group | POST_pin_chat | POST_archive_chat | POST_mute_chat
  | POST_send_typing | POST_send_recording | POST_clear_state
  | POST_remove_labels | POST_approve_request | POST_reject_request
  | POST_sync_history => [("chatId", Present)]
  | POST_delete_message | POST_pin_message | POST_unpin_message
  | POST_jump_to_message => [("messageId", Present)]
  | GET_status | POST_initialize | GET_group_info | GET_chats | GET_info
  | GET_device_count | GET_statuses | POST_change_sync | GET_download_media
  | GET_message_info | GET_quoted_message | GET_contacts | GET_chat
  | GET_messages => []
  end.

(** The text of the 400 each route answers when one of them is missing. *)
Definition required_error (r : route) : string :=
  match r with
  | POST_send_message => "to and message are required"
  | POST_reply_message => "messageId and reply are required"
  | POST_set_subject => "chatId and subject are required"
  | POST_set_description => "chatId and description are required"
  | POST_join_group => "inviteCode is required"
  | POST_add_members => "chatId and participants array are required"
  | POST_create_group => "title and participants array are required"
  | POST_send_location => "to, latitude, and longitude are required"
  | POST_set_status => "status is required"
  | POST_mention_users => "chatId, message, and mentions array are required"
  | POST_mention_groups => "chatId, message, and groupMentions are required"
  | POST_send_buttons => "to, body, and buttons array are required"
  | POST_send_list => "to, body, buttonText, and sections array are required"
  | POST_send_reaction => "messageId and reaction are required"
  | POST_send_poll => "to, question, and options array are required"
  | POST_edit_message => "messageId and newText are required"
  | POST_update_labels => "chatId and labelIds array are required"
  | POST_add_labels => "chatId and newLabelIds array are required"
  | POST_send_media => "to and media file are required"
  | POST_send_vcard => "to and vCard are required"
  | POST_send_preview => "to and text are required"
  | POST_leave_group | POST_pin_chat | POST_archive_chat | POST_mute_chat
  | POST_send_typing | POST_send_recording | POST_clear_state
  | POST_remove_labels | POST_approve_request | POST_reject_request
  | POST_sync_history => "chatId is required"
  | POST_delete_message | POST_pin_message | POST_unpin_message
  | POST_jump_to_message => "messageId is required"
  | GET_status | POST_initialize | GET_group_info | GET_chats | GET_info
  | GET_device_count | GET_statuses | POST_change_sync | GET_download_media
  | GET_message_info | GET_quoted_message | GET_contacts | GET_chat
  | GET_messages => ""
  end.

Definition bad_request (msg : string) : response :=
  {| res_status := 400; res_body := error_body (JStr msg) |}.

(** Counting the method calls of a trace: all of them, and those made on
    the client handle itself. *)
Definition is_client_call (ev : event) : bool :=
  match fst ev with
  | ClientCall _ _ _ => true
  | New _ _ | ClientGet _ _ | ObjCall _ _ _ | Builtin _ _ => false
  end.

Definition method_calls (t : trace) : nat :=
  List.length (filter is_method_call t).

Definition client_calls (t : trace) : nat :=
  List.length (filter is_client_call t).

(** [within who P c m p]: on every path, [p] calls at most [c] methods of
    the client and at most [m] methods in all, addresses the client as
    [who] whenever it addresses it, and what it returns satisfies [P]. *)
Inductive within {A : Type} (who : option handle) (P : A -> Prop)
  : nat -> nat -> prog A -> Prop :=
| within_ret (c m : nat) (a : A) :
    P a -> within who P c m (Ret a)
| within_throw (c m : nat) (e : jsval) :
    within who P c m (Throw e)
| within_client (c m : nat) (h : handle) (method : string)
    (args : list jsval) (k : jsval -> prog A) :
    who = Some h ->
    (forall v, within who P c m (k v)) ->
    within who P (S c) (S m) (Call (ClientCall h method args) k)
| within_object (c m : nat) (recv : jsval) (method : string)
    (args : list jsval) (k : jsval -> prog A) :
    (forall v, within who P c m (k v)) ->
    within who P c (S m) (Call (ObjCall recv method args) k)
| within_new (c m : nat) (cls : string) (args : list jsval)
    (k : jsval -> prog A) :
    (forall v, within who P c m (k v)) ->
    within who P c m (Call (New cls args) k)
| within_get (c m : nat) (h : handle) (p : string) (k : jsval -> prog A) :
    who = Some h ->
    (forall v, within who P c m (k v)) ->
    within who P c m (Call (ClientGet h p) k)
| within_builtin (c m : nat) (name : string) (args : list jsval)
    (k : jsval -> prog A) :
    (forall v, within who P c m (k v)) ->
    within who P c m (Call (Builtin name args) k).

(** The client an event addresses, and a trace that addresses [who] only. *)
Definition target (ev : event) : option handle :=
  match fst ev with
  | ClientCall h _ _ | ClientGet h _ => Some h
  | New _ _ | ObjCall _ _ _ | Builtin _ _ => None
  end.

Definition addressed_to (who : option handle) (t : trace) : Prop :=
  forall ev h, In ev t -> target ev = Some h -> who = Some h.

Definition already_initialized : response :=
  {| res_status := 200;
     res_body := JObj [("message", JStr "Client already initialized")] |}.

Definition any {A : Type} (_ : A) : Prop := True.

(** The statuses a handler body answers with. *)
Definition ok_or_bad_request (r : response) : Prop :=
  res_status r = 200%Z \/ res_status r = 400%Z.


Definition a_group : jsval :=
  JObj [("id", JObj [("_serialized", JStr "120363@g.us")]);
        ("name", JStr "Team"); ("isGroup", JBool true);
        ("unreadCount", JNum 2); ("timestamp", JNum 1700000000)].

(** An environment with one group chat carrying one label. *)
Definition one_group : oracle := fun _ eff =>
  match eff with
  | ClientCall _ "getChatById" _ => Returned a_group
  | ClientCall _ "getChats" _ => Returned (JArr [a_group])
  | ObjCall _ "getLabels" _ => Returned (JArr [JObj [("id", JStr "7")]])
  | ClientGet _ "info" =>
      Returned (JObj [("pushname", JStr "Ada");
                      ("wid", JObj [("user", JStr "491701234567")]);
                      ("platform", JStr "android")])
  | _ => Returned JUndefined
  end.

Definition add_two_labels : request :=
  mk_request [("chatId", JStr "120363@g.us");
              ("newLabelIds", JArr [JStr "8"; JStr "9"])].

Definition leave_request : request :=
  mk_request [("chatId", JStr "120363@g.us")].

(** The value of [v.p] where reading it does not throw. *)
Definition read (v : jsval) (p : string) : jsval :=
  match get_prop v p with
  | Normal x => x
  | Abrupt _ => JUndefined
  end.

(** The entry GET /chats is to list for one chat object: the five fields,
    each as the chat object carries it. *)
Definition chat_entry (chat : jsval) : jsval :=
  JObj [("id", read (read chat "id") "_serialized");
        ("name", read chat "name");
        ("isGroup", read chat "isGroup");
        ("unreadCount", read chat "unreadCount");
        ("timestamp", read chat "timestamp")].

(** A chat object carries an [id] object. *)
Definition has_id (chat : jsval) : bool :=
  negb (nullish chat) && negb (nullish (read chat "id")).

Definition chat_listing (chats : list jsval) : response :=
  {| res_status := 200;
     res_body := JObj [("count", JNum (Z.of_nat (List.length chats)));
                       ("chats", JArr (map chat_entry chats))] |}.

Definition a_contact_chat : jsval :=
  JObj [("id", JObj [("_serialized", JStr "491701234567@c.us")]);
        ("name", JStr "Ada"); ("isGroup", JBool false);
        ("unreadCount", JNum 0); ("timestamp", JNum 1700000100);
        ("archived", JBool false)].

(** An environment with two chats. *)
Definition two_chats : oracle := fun _ eff =>
  match eff with
  | ClientCall _ "getChats" _ => Returned (JArr [a_group; a_contact_chat])
  | _ => Returned JUndefined
  end.

(** The chat-id normalization as worded: append "@c.us" exactly when the
    string does not contain it. *)
Definition normalize (id : string) : string :=
  if includes id "@c.us" then id else id +++ "@c.us".



Definition a_foreign_message : jsval :=
  JObj [("id", JObj [("_serialized", JStr "false_491701234567@c.us_3EB0")]);
        ("body", JStr "hi"); ("fromMe", JBool false)].

Definition an_own_message : jsval :=
  JObj [("id", JObj [("_serialized", JStr "true_491701234567@c.us_3EB1")]);
        ("body", JStr "hello"); ("fromMe", JBool true)].

(** An environment with a one-to-one chat, a message received in it and a
    message sent in it. *)
Definition one_contact : oracle := fun _ eff =>
  match eff with
  | ClientCall _ "getChatById" _ => Returned a_contact_chat
  | ClientCall _ "getMessageById"
      [JStr "false_491701234567@c.us_3EB0"] => Returned a_foreign_message
  | ClientCall _ "getMessageById" _ => Returned an_own_message
  | _ => Returned JUndefined
  end.

Definition rename_request : request :=
  mk_request [("chatId", JStr "491701234567@c.us"); ("subject", JStr "Team")].

Definition delete_theirs : request :=
  mk_request [("messageId", JStr "false_491701234567@c.us_3EB0")].

Definition delete_mine : request :=
  mk_request [("messageId", JStr "true_491701234567@c.us_3EB1")].

(** ** Vocabulary of the lifecycle statements *)

Definition initialization_started : response :=
  {| res_status := 200;
     res_body := JObj [("message", JStr "Client initialization started")] |}.

(** The listeners client [h] carries once [n] of them are registered. *)
Definition listeners_of (h : handle) (n : nat) : list (handle * lifecycle) :=
  map (fun ev => (h, ev)) (firstn n consumed).

(** The state after a second [initializeClient()], asked for by
    POST /initialize before the first client reported ready. *)
Definition started_twice : state :=
  fst (serve quiet started POST_initialize (mk_request [])).

(** [res.json({ success: true })] *)
Definition succeeded : response :=
  {| res_status := 200; res_body := success |}.

(** How a handler ends after its last call: with [answer] when the call
    returns, in the catch block when it throws. *)
Definition ends_with (out : outcome) (answer : response) : result :=
  match out with
  | Returned _ => Responded answer
  | Threw e => caught e
  end.

(** C6's wording at one state.  A client is still served while the facade
    consumes its lifecycle events; the wording allows one such client among
    those built. *)
Definition still_served (s : state) (h : handle) : Prop :=
  h < built s /\ exists ev, listening s h ev = true.

Definition one_session (s : state) : Prop :=
  forall h1 h2, still_served s h1 -> still_served s h2 -> h1 = h2.

(** ** The script of a handler *)






(** A body that has no effect. *)
Definition silent {A : Type} (p : prog A) : Prop :=
  match p with
  | Call _ _ => False
  | Ret _ | Throw _ => True
  end.

(** The methods each route's handler calls when nothing stops it. *)
Definition script (r : route) : list string :=
  match r with
  | GET_status | POST_initialize | GET_info => []
  | POST_send_message | POST_send_location | POST_send_buttons
  | POST_send_list | POST_send_poll | POST_send_media | POST_send_vcard
  | POST_send_preview => ["sendMessage"]
  | POST_reply_message => ["getMessageById"; "reply"]
  | POST_set_subject => ["getChatById"; "setSubject"]
  | POST_set_description => ["getChatById"; "setDescription"]
  | POST_leave_group => ["getChatById"; "leave"]
  | POST_join_group => ["acceptInvite"]
  | POST_add_members => ["getChatById"; "addParticipants"]
  | POST_create_group => ["createGroup"]
  | GET_group_info | GET_chat => ["getChatById"]
  | GET_chats => ["getChats"]
  | POST_set_status => ["setStatus"]
  | POST_mention_users | POST_mention_groups => ["getChatById"; "sendMessage"]
  | POST_delete_message => ["getMessageById"; "delete"]
  | POST_pin_chat => ["getChatById"; "pin"]
  | POST_archive_chat => ["getChatById"; "archive"]
  | POST_mute_chat => ["getChatById"; "mute"]
  | POST_send_typing => ["getChatById"; "sendStateTyping"]
  | POST_send_recording => ["getChatById"; "sendStateRecording"]
  | POST_clear_state => ["getChatById"; "clearState"]
  | POST_send_reaction => ["getMessageById"; "react"]
  | POST_edit_message => ["getMessageById"; "edit"]
  | POST_update_labels | POST_remove_labels => ["getChatById"; "changeLabels"]
  | POST_add_labels => ["getChatById"; "getLabels"; "changeLabels"]
  | POST_approve_request => ["approveGroupMembershipRequests"]
  | POST_reject_request => ["rejectGroupMembershipRequests"]
  | POST_pin_message => ["getMessageById"; "pin"]
  | POST_unpin_message => ["getMessageById"; "unpin"]
  | GET_device_count => ["getContactDeviceCount"]
  | POST_sync_history => ["syncHistory"]
  | GET_statuses => ["getBroadcasts"]
  | POST_change_sync => ["setBackgroundSync"]
  | GET_download_media => ["getMessageById"; "downloadMedia"]
  | GET_message_info => ["getMessageById"]
  | GET_quoted_message => ["getMessageById"; "getQuotedMessage"]
  | POST_jump_to_message => ["openChatWindowAt"]
  | GET_contacts => ["getContacts"]
  | GET_messages => ["getChatById"; "fetchMessages"]
  end.



Definition keys (v : jsval) : list string :=
  match v with
  | JObj fields => map fst fields
  | _ => []
  end.









(** ** Vocabulary of the further properties *)

(** The property or method a handler first reads off the object its lookup
    resolved, on the routes where that read directly follows the lookup. *)
Definition first_use (r : route) : option string :=
  match r with
  | POST_reply_message => Some "reply"
  | POST_set_subject | POST_set_description | POST_leave_group
  | GET_group_info => Some "isGroup"
  | POST_mention_groups => Some "sendMessage"
  | POST_delete_message | POST_edit_message => Some "fromMe"
  | POST_pin_chat | POST_pin_message => Some "pin"
  | POST_archive_chat => Some "archive"
  | POST_send_typing => Some "sendStateTyping"
  | POST_send_recording => Some "sendStateRecording"
  | POST_clear_state => Some "clearState"
  | POST_send_reaction => Some "react"
  | POST_update_labels | POST_remove_labels => Some "changeLabels"
  | POST_add_labels => Some "getLabels"
  | POST_unpin_message => Some "unpin"
  | GET_download_media => Some "hasMedia"
  | GET_message_info | GET_chat => Some "id"
  | GET_quoted_message => Some "hasQuotedMsg"
  | GET_messages => Some "fetchMessages"
  | _ => None
  end.

Definition server_error (msg : string) : response :=
  {| res_status := 500; res_body := error_body (JStr msg) |}.

(** The message of the TypeError thrown by reading [p] off [v]. *)
Definition cannot_read_text (v : jsval) (p : string) : string :=
  "Cannot read properties of " +++ to_string v +++
  " (reading '" +++ p +++ "')".

(** The routes that send to the body field [to]. *)
Definition sends_to : list route :=
  [POST_send_message; POST_send_location; POST_send_buttons; POST_send_list;
   POST_send_poll; POST_send_media; POST_send_vcard; POST_send_preview].

(** The values without an [includes] method that a JSON body can carry:
    neither a string nor an array, and not [null]. *)
Definition no_includes (v : jsval) : bool :=
  match v with
  | JBool _ | JNum _ | JObj _ => true
  | JUndefined | JNull | JStr _ | JArr _ => false
  end.

(** Every required field of the route passes the handler's test, and the
    upload is there where the route takes one. *)
Definition validated (r : route) (req : request) : Prop :=
  (forall f k, In (f, k) (required_fields r) -> missing k (field req f) = false)
  /\ (r = POST_send_media -> req_file req <> None).

Definition a_number_for_recipient : request :=
  mk_request [("to", JNum 491701234567); ("message", JStr "hello")].
(** A list of ids with one entry that is not text. *)
Definition with_malformed (pre : list string) (bad : jsval)
    (post : list jsval) : jsval :=
  JArr (map JStr pre ++ bad :: post).

Definition a_malformed_invitation : request :=
  mk_request [("chatId", JStr "120363@g.us"); ("title", JStr "Team");
              ("participants", JArr [JStr "491701234567"; JNum 4915])].
(** The ids of the labels a chat carries, as [labels.map((l) => l.id)]
    reads them. *)
Definition label_ids (labels : list jsval) : list jsval :=
  map (fun l => read l "id") labels.
(** What an effect calls, and with what. *)
Definition callee (eff : effect) : string :=
  match eff with
  | New name _ | ClientCall _ name _ | ClientGet _ name
  | ObjCall _ name _ | Builtin name _ => name
  end.



(** A request to approve every pending membership request of a group at
    once, without pause. *)
Definition approve_all : request :=
  mk_request [("chatId", JStr "120363@g.us"); ("requesterIds", JArr []);
              ("sleep", JNum 0)].

(** [{ success: true, result }] *)
Definition succeeded_with (result : jsval) : response :=
  {| res_status := 200;
     res_body := JObj [("success", JBool true); ("result", result)] |}.



(** The two routes that test a property of the message before they ask it
    for its content: the property, the method asked next and the text of
    the 400. *)
Definition content_guard (r : route) : option (string * string * string) :=
  match r with
  | GET_download_media =>
      Some ("hasMedia", "downloadMedia", "Message does not have media")
  | GET_quoted_message =>
      Some ("hasQuotedMsg", "getQuotedMessage",
            "Message does not have quoted message")
  | _ => None
  end.

Definition about_message : request :=
  {| req_body := [];
     req_params := [("messageId", JStr "true_491701234567@c.us_3EB1")];
     req_query := []; req_file := None |}.

(** The routes that read a property off the result of their last call, with
    the call and the property read first. *)
Definition result_use (r : route) : option (string * string) :=
  match r with
  | POST_send_message => Some ("sendMessage", "id")
  | GET_download_media => Some ("downloadMedia", "mimetype")
  | GET_quoted_message => Some ("getQuotedMessage", "id")
  | _ => None
  end.

(** An environment in which a message has media that cannot be fetched:
    [downloadMedia] resolves [undefined]. *)
Definition media_gone : oracle := fun _ eff =>
  match eff with
  | ClientCall _ "getMessageById" _ =>
      Returned (JObj [("hasMedia", JBool true)])
  | _ => Returned JUndefined
  end.
(** The body of GET /status. *)
Definition status_reply (ready : bool) (timestamp : jsval) : response :=
  {| res_status := 200;
     res_body := JObj [("ready", JBool ready); ("timestamp", timestamp)] |}.

Definition clock : effect := Builtin "Date.toISOString" [].

(** The events that close the gate. *)
Definition closing (ev : lifecycle) : bool :=
  match ev with
  | auth_failure | disconnected => true
  | loading_screen | qr | code | authenticated | ready | message => false
  end.
(** What GET /group-info/:chatId answers for a group. *)
Definition group_info (chat : jsval) : response :=
  {| res_status := 200;
     res_body :=
       JObj [("name", read chat "name");
             ("description", read chat "description");
             ("createdAt", read chat "createdAt");
             ("owner", read (read chat "owner") "user");
             ("participantCount", read (read chat "participants") "length");
             ("participants", read chat "participants")] |}.


(** A group whose owner is not known. *)
Definition an_orphan_group : jsval :=
  JObj [("id", JObj [("_serialized", JStr "120363@g.us")]);
        ("name", JStr "Team"); ("isGroup", JBool true);
        ("participants", JArr [])].

Definition orphan_groups : oracle := fun _ eff =>
  match eff with
  | ClientCall _ "getChatById" _ => Returned an_orphan_group
  | _ => Returned JUndefined
  end.

Definition about_chat : request :=
  {| req_body := [];
     req_params := [("chatId", JStr "491701234567@c.us")];
     req_query := []; req_file := None |}.
(** The argument of [new Client(..)]. *)
Definition client_options (auth : jsval) : jsval :=
  JObj [("authStrategy", auth);
        ("puppeteer", JObj [("headless", JBool false)])].



(** A poll with its secret. *)
Definition a_poll : request :=
  mk_request [("to", JStr "491701234567"); ("question", JStr "Lunch?");
              ("options", JArr [JStr "yes"; JStr "no"]);
              ("messageSecret", JArr [JNum 1; JNum 2])].

(** * Properties *)

(** ** Strings *)




(** ** Runs *)

Section RunFacts.

Variable o : oracle.

(** An effect that threw is the last event of a run, and what it threw is
    how the run completed. *)
Lemma run_threw_last (A : Type) (p : prog A) :
  forall past t c,
    run o past p = (t, c) ->
    forall t1 eff e t2,
      t = t1 ++ (eff, Threw e) :: t2 ->
      t2 = [] /\ c = Abrupt e.
Proof.
  induction p as [a|e0|eff0 k IH]; intros past t c Hrun t1 eff e t2 Ht;
    simpl in Hrun.
  - injection Hrun as <- <-. now destruct t1.
  - injection Hrun as <- <-. now destruct t1.
  - destruct (o past eff0) as [v|e1] eqn:Ho.
    + destruct (run o (past ++ [(eff0, Returned v)]) (k v)) as [t0 c0] eqn:Hk.
      injection Hrun as <- <-.
      destruct t1 as [|x t1]; simpl in Ht.
      * discriminate Ht.
      * injection Ht as _ Ht. eapply IH; eauto.
    + injection Hrun as <- <-.
      destruct t1 as [|x t1]; simpl in Ht.
      * injection Ht as _ <- <-. auto.
      * injection Ht as _ Ht. now destruct t1.
Qed.

Lemma run_g_threw_last (A : Type) (p : gprog A) :
  forall past s t s' c,
    run_g o past s p = (t, s', c) ->
    forall t1 eff e t2,
      t = t1 ++ (eff, Threw e) :: t2 ->
      t2 = [] /\ c = Abrupt e.
Proof.
  induction p as [a|e0|eff0 k IH|k IH|w k IH];
    intros past s t s' c Hrun t1 eff e t2 Ht; simpl in Hrun.
  - injection Hrun as <- _ <-. now destruct t1.
  - injection Hrun as <- _ <-. now destruct t1.
  - destruct (o past eff0) as [v|e1] eqn:Ho.
    + destruct (run_g o (past ++ [(eff0, Returned v)]) s (k v))
        as [[t0 s0] c0] eqn:Hk.
      injection Hrun as <- _ <-.
      destruct t1 as [|x t1]; simpl in Ht.
      * discriminate Ht.
      * injection Ht as _ Ht. eapply IH; eauto.
    + injection Hrun as <- _ <-.
      destruct t1 as [|x t1]; simpl in Ht.
      * injection Ht as _ <- <-. auto.
      * injection Ht as _ Ht. now destruct t1.
  - eapply IH; eauto.
  - eapply IH; eauto.
Qed.

(** The shared catch block has no effect of its own. *)
Lemma run_catch_500 (past : trace) (e : jsval) :
  run o past (catch_500 e) =
  ([], match get_prop e "message" with
       | Normal m =>
           Normal {| res_status := 500; res_body := error_body m |}
       | Abrupt e' => Abrupt e'
       end).
Proof.
  unfold catch_500, prop. destruct (get_prop e "message"); reflexivity.
Qed.

Lemma run_handler_try (body : prog response) :
  run_handler o (try_ body) =
  (fst (run o [] body), settle (snd (run o [] body))).
Proof.
  unfold run_handler, run_try, try_; simpl.
  destruct (run o [] body) as [t [r|e]]; simpl; [reflexivity|].
  rewrite run_catch_500, app_nil_r.
  destruct (get_prop e "message"); reflexivity.
Qed.

End RunFacts.

(** ** The readiness gate *)

(** C1: every route other than GET /status and POST /initialize is mounted
    behind [checkClientReady]; while [clientReady] is false a request to it
    is answered 503 [{"error": "WhatsApp client not ready"}] with no effect
    at all, hence no method call on the client; while it is true the request
    is served by the route's handler. *)
Theorem readiness_gate (o : oracle) (s : state) (r : route) (req : request) :
  r <> GET_status ->
  r <> POST_initialize ->
  exists h,
    app r = Guarded h /\
    (clientReady s = false ->
     serve o s r req = (s, ([], Responded not_ready))) /\
    (clientReady s = true ->
     serve o s r req = (s, run_handler o (h (client s) req))).
Proof.
  intros Hstatus Hinit.
  destruct r; try contradiction;
    (eexists; split; [reflexivity|]; split; intros Hflag;
     unfold serve, checkClientReady; simpl; rewrite Hflag; reflexivity).
Qed.

Lemma readiness_gate_witness :
  exists h,
    app POST_send_message = Guarded h /\
    (clientReady initial = false ->
     serve quiet initial POST_send_message (mk_request []) =
     (initial, ([], Responded not_ready))) /\
    (clientReady initial = true ->
     serve quiet initial POST_send_message (mk_request []) =
     (initial, run_handler quiet (h (client initial) (mk_request [])))).
Proof.
  apply (readiness_gate quiet initial (r := POST_send_message) (mk_request []));
    discriminate.
Defined.

(** ** The readiness flag *)

Create HintDb flag.
#[local] Hint Constructors keeps_flag : flag.

Lemma keeps_flag_bind (A B : Type) (p : gprog A) (f : A -> gprog B) :
  keeps_flag p -> (forall a, keeps_flag (f a)) -> keeps_flag (gbind p f).
Proof.
  intros Hp Hf. induction Hp; simpl; auto with flag.
Qed.

Lemma keeps_flag_initializeClient : keeps_flag initializeClient.
Proof.
  unfold initializeClient, gawait, assign; simpl.
  repeat (constructor; intros).
Qed.

Lemma run_g_keeps_flag (A : Type) (p : gprog A) :
  keeps_flag p ->
  forall o past s, clientReady (snd (fst (run_g o past s p))) = clientReady s.
Proof.
  induction 1 as [a|e|eff k Hk IH|k Hk IH|w k Hw Hk IH]; intros o past s;
    simpl; auto.
  - destruct (o past eff) as [v|e]; [|reflexivity].
    specialize (IH v o (past ++ [(eff, Returned v)]) s).
    destruct (run_g o (past ++ [(eff, Returned v)]) s (k v)) as [[t s'] c].
    exact IH.
  - rewrite IH. apply Hw.
Qed.

Lemma keeps_flag_sync (r : route) (p : gprog response) :
  app r = Sync p -> keeps_flag p.
Proof.
  destruct r; simpl; intros Happ; try discriminate;
    injection Happ as <-.
  - unfold get_status, gawait; simpl. repeat (constructor; intros).
  - unfold post_initialize. constructor; intros s.
    destruct (clientReady s); [constructor|].
    apply keeps_flag_bind; [apply keeps_flag_initializeClient|].
    intros; constructor.
Qed.

Lemma serve_keeps_flag (o : oracle) (s : state) (r : route) (req : request) :
  clientReady (fst (serve o s r req)) = clientReady s.
Proof.
  unfold serve. destruct (app r) as [p|h] eqn:Happ; [|reflexivity].
  unfold run_sync.
  pose proof (run_g_keeps_flag (keeps_flag_sync r Happ) o [] s) as Hflag.
  destruct (run_g o [] s p) as [[t s'] [res|e]]; exact Hflag.
Qed.

Lemma emit_flag (o : oracle) (s : state) (h : handle) (ev : lifecycle) :
  listening s h ev = true ->
  clientReady (snd (emit o s h ev)) = flag_after ev (clientReady s).
Proof.
  intros Hl. unfold emit. rewrite Hl.
  destruct ev; simpl; try reflexivity.
  destruct (client s) as [c|]; simpl; [|reflexivity].
  destruct (o [] (ClientCall c "getWWebVersion" [])); reflexivity.
Qed.


(** ** Exceptions *)

Lemma guarded_is_try (r : route) (h : option handle -> request -> handler)
    (c : option handle) (req : request) :
  app r = Guarded h -> h c req = try_ (try_body (h c req)).
Proof.
  destruct r; simpl; intros Happ; try discriminate;
    injection Happ as <-; reflexivity.
Qed.

Lemma serve_guarded (o : oracle) (s : state) (r : route) (req : request)
    (h : option handle -> request -> handler) :
  app r = Guarded h ->
  clientReady s = true ->
  snd (serve o s r req) =
  (fst (run o [] (try_body (h (client s) req))),
   settle (snd (run o [] (try_body (h (client s) req))))).
Proof.
  intros Happ Hready. unfold serve, checkClientReady.
  rewrite Happ, Hready; simpl.
  rewrite (guarded_is_try r (client s) req Happ) at 1.
  apply run_handler_try.
Qed.

Lemma serve_not_ready (o : oracle) (s : state) (r : route) (req : request)
    (h : option handle -> request -> handler) :
  app r = Guarded h ->
  clientReady s = false ->
  snd (serve o s r req) = ([], Responded not_ready).
Proof.
  intros Happ Hoff. unfold serve, checkClientReady.
  now rewrite Happ, Hoff.
Qed.

(** C3, as the code has it: whatever throws ends the handler.  An effect
    that threw is the last event of the request, so nothing is retried and
    no further call is made.  Behind [checkClientReady] the catch block
    answers 500 with the message of what was thrown, be it thrown by the
    library or by the handler's own code on a malformed value; GET /status
    and POST /initialize have no catch block, and the error middleware
    answers 500 "Internal server error" for them. *)
Theorem exceptions_end_handlers (o : oracle) (s : state) (r : route)
    (req : request) (t : trace) (res : result) :
  snd (serve o s r req) = (t, res) ->
  (forall t1 eff e t2,
      t = t1 ++ (eff, Threw e) :: t2 ->
      t2 = [] /\
      res = match app r with
            | Guarded _ => caught e
            | Sync _ => Responded (error_middleware e)
            end) /\
  (forall h e t',
      app r = Guarded h ->
      clientReady s = true ->
      run o [] (try_body (h (client s) req)) = (t', Abrupt e) ->
      t = t' /\ res = caught e) /\
  (forall e m,
      get_prop e "message" = Normal m ->
      caught e = Responded {| res_status := 500; res_body := error_body m |}).
Proof.
  intros Hserve. split; [|split].
  - intros t1 eff e t2 Ht.
    destruct (app r) as [p|h] eqn:Happ.
    + unfold serve, run_sync in Hserve. rewrite Happ in Hserve.
      destruct (run_g o [] s p) as [[t0 s0] c0] eqn:Hrun.
      assert (t0 = t) as ->
          by (destruct c0; simpl in Hserve; congruence).
      destruct (@run_g_threw_last o _ p [] s _ _ _ Hrun t1 eff e t2 Ht) as [-> ->].
      simpl in Hserve. split; congruence.
    + destruct (clientReady s) eqn:Hflag.
      * rewrite (serve_guarded o s r req Happ Hflag) in Hserve.
        destruct (run o [] (try_body (h (client s) req))) as [t0 c0] eqn:Hrun.
        simpl in Hserve. injection Hserve as <- <-.
        destruct (@run_threw_last o _ _ [] _ _ Hrun t1 eff e t2 Ht) as [-> ->].
        split; reflexivity.
      * rewrite (serve_not_ready o s r req Happ Hflag) in Hserve.
        injection Hserve as <- _. now destruct t1.
  - intros h e t' Happ Hflag Hrun.
    rewrite (serve_guarded o s r req Happ Hflag), Hrun in Hserve.
    simpl in Hserve. injection Hserve as <- <-. split; reflexivity.
  - intros e m Hm. unfold caught; simpl. now rewrite Hm.
Qed.

Lemma exceptions_end_handlers_witness :
  snd (serve send_fails ready_state POST_send_message hello)
  = ([send_failed], evaluation_failed) /\
  (@nil event = [] /\
   evaluation_failed = caught (an_error "Evaluation failed")).
Proof.
  assert (snd (serve send_fails ready_state POST_send_message hello)
          = ([send_failed], evaluation_failed)) as Hserve by reflexivity.
  split; [exact Hserve|].
  exact (proj1 (exceptions_end_handlers send_fails ready_state
                  POST_send_message hello Hserve)
               [] _ _ [] eq_refl).
Defined.

(** C3 as worded fails at POST /initialize: when [new Client(..)] throws,
    the answer is the middleware's fixed text, not the thrown message. *)
Lemma initialize_hides_message :
  ~ echoes_throw (snd (serve launch_fails started POST_initialize
                         (mk_request []))).
Proof.
  intros Hclaim.
  destruct (Hclaim (New "Client"
                      [JObj [("authStrategy", JUndefined);
                             ("puppeteer", JObj [("headless", JBool false)])]])
                   (an_error "Failed to launch the browser process"))
    as (code & m & _ & Hm & Hres).
  - simpl. right. left. reflexivity.
  - simpl in Hm, Hres. injection Hm as <-. discriminate Hres.
Qed.

(** ** Request validation *)

(** Case analysis on every test a handler makes on the request. *)
Ltac split_request_tests :=
  repeat match goal with
         | |- context [js_not (field ?q ?f)] => destruct (js_not (field q f))
         | |- context [isArray (field ?q ?f)] => destruct (isArray (field q f))
         | |- context [req_file ?q] => destruct (req_file q)
         end.

Ltac serve_ready Hready :=
  match goal with
  | |- context [snd (serve ?o ?s ?r ?req)] =>
      rewrite (@serve_guarded o s r req _ eq_refl Hready)
  end.

Lemma missing_field_400 (o : oracle) (s : state) (r : route) (req : request)
    (name : string) (kind : field_kind) :
  clientReady s = true ->
  In (name, kind) (required_fields r) ->
  missing kind (field req name) = true ->
  snd (serve o s r req) = ([], Responded (bad_request (required_error r))).
Proof.
  intros Hready Hin Hmiss.
  destruct r; simpl in Hin; try contradiction;
    repeat (destruct Hin as [Hin|Hin]; [injection Hin as <- <-|]);
    try contradiction;
    serve_ready Hready; unfold missing in Hmiss; revert Hmiss; cbn;
    split_request_tests; simpl; intros; try discriminate; reflexivity.
Qed.

Lemma required_error_names_fields (r : route) :
  Forall (fun f => includes (required_error r) (fst f) = true)
         (required_fields r).
Proof.
  destruct r; repeat constructor.
Qed.

(** C4: on every route that requires body fields, a request that lacks one
    of them (absent or falsy, or not an array where the handler asks for
    one) is answered 400 with the route's error text, which names each
    required field, and has no effect at all, so no method of the client is
    called. *)
Theorem missing_field_rejected (o : oracle) (s : state) (r : route)
    (req : request) (name : string) (kind : field_kind) :
  clientReady s = true ->
  In (name, kind) (required_fields r) ->
  missing kind (field req name) = true ->
  snd (serve o s r req) = ([], Responded (bad_request (required_error r))) /\
  Forall (fun f => includes (required_error r) (fst f) = true)
         (required_fields r).
Proof.
  intros Hready Hin Hmiss. split.
  - eapply missing_field_400; eauto.
  - apply required_error_names_fields.
Qed.

Lemma missing_field_rejected_witness :
  snd (serve quiet ready_state POST_add_members
         (mk_request [("chatId", JStr "120363@g.us");
                      ("participants", JStr "491701234567")])) =
  ([], Responded (bad_request "chatId and participants array are required")) /\
  Forall (fun f => includes (required_error POST_add_members) (fst f) = true)
         (required_fields POST_add_members).
Proof.
  apply (@missing_field_rejected quiet ready_state POST_add_members
           (mk_request [("chatId", JStr "120363@g.us");
                        ("participants", JStr "491701234567")])
           "participants" ArrayField).
  - reflexivity.
  - simpl. right. left. reflexivity.
  - reflexivity.
Defined.

(** ** How many methods a handler calls *)

Create HintDb within.
#[local] Hint Constructors within : within.

Lemma within_weaken (A : Type) (who : option handle) (P : A -> Prop)
    (c m : nat) (p : prog A) :
  within who P c m p ->
  forall c' m', c <= c' -> m <= m' -> within who P c' m' p.
Proof.
  induction 1; intros c' m' Hc Hm; auto with within.
  - destruct c' as [|c']; [lia|]. destruct m' as [|m']; [lia|].
    constructor; [assumption|]. intros v. apply H1; lia.
  - destruct m' as [|m']; [lia|].
    constructor. intros v. apply H0; lia.
Qed.

Lemma within_bind (A B : Type) (who : option handle)
    (P : A -> Prop) (Q : B -> Prop)
    (c1 m1 c2 m2 : nat) (p : prog A) (f : A -> prog B) :
  within who P c1 m1 p ->
  (forall a, P a -> within who Q c2 m2 (f a)) ->
  within who Q (c1 + c2) (m1 + m2) (bind p f).
Proof.
  intros Hp Hf. induction Hp; simpl; auto with within.
  - eapply within_weaken; [apply Hf; assumption|lia|lia].
Qed.

Lemma bind_pure (A B : Type) (who : option handle) (Q : B -> Prop)
    (c m : nat) (p : prog A) (f : A -> prog B) :
  within who any 0 0 p -> (forall a, within who Q c m (f a)) ->
  within who Q c m (bind p f).
Proof.
  intros Hp Hf.
  exact (@within_bind _ _ who any Q 0 0 c m p f Hp (fun a _ => Hf a)).
Qed.

Lemma bind_client (A B : Type) (who : option handle) (Q : B -> Prop)
    (c m : nat) (p : prog A) (f : A -> prog B) :
  within who any 1 1 p -> (forall a, within who Q c m (f a)) ->
  within who Q (S c) (S m) (bind p f).
Proof.
  intros Hp Hf.
  exact (@within_bind _ _ who any Q 1 1 c m p f Hp (fun a _ => Hf a)).
Qed.

Lemma bind_object (A B : Type) (who : option handle) (Q : B -> Prop)
    (c m : nat) (p : prog A) (f : A -> prog B) :
  within who any 0 1 p -> (forall a, within who Q c m (f a)) ->
  within who Q c (S m) (bind p f).
Proof.
  intros Hp Hf.
  exact (@within_bind _ _ who any Q 0 1 c m p f Hp (fun a _ => Hf a)).
Qed.

Lemma within_lift (A : Type) (who : option handle) (x : completion A) :
  within who any 0 0 (lift x).
Proof. destruct x; constructor; exact I. Qed.

Lemma within_prop (who : option handle) (v : jsval) (p : string) :
  within who any 0 0 (prop v p).
Proof. apply within_lift. Qed.

Lemma within_receiver (who : option handle) (v : jsval) (m : string) :
  within who any 0 0 (receiver v m).
Proof. unfold receiver. destruct (nullish v); constructor; exact I. Qed.

Lemma within_client_call (c : option handle) (m : string) (args : list jsval) :
  within c any 1 1 (client_call c m args).
Proof.
  destruct c; simpl; repeat constructor.
Qed.

Lemma within_client_get (c : option handle) (p : string) :
  within c any 0 0 (client_get c p).
Proof. destruct c; simpl; repeat constructor. Qed.

Lemma within_method_call (who : option handle) (recv : jsval) (m : string)
    (args : list jsval) :
  within who any 0 1 (method_call recv m args).
Proof.
  unfold method_call. apply bind_pure; [apply within_receiver|].
  intros _. repeat constructor.
Qed.

Lemma within_format_chat_id (who : option handle) (name : string) (x : jsval) :
  within who any 0 0 (format_chat_id name x).
Proof.
  unfold format_chat_id. apply bind_pure; [apply within_lift|].
  intros b. constructor. exact I.
Qed.

Lemma within_map_prog (who : option handle) (f : jsval -> prog jsval)
    (l : list jsval) :
  (forall x, within who any 0 0 (f x)) -> within who any 0 0 (map_prog f l).
Proof.
  intros Hf. induction l as [|x l IH]; simpl.
  - constructor. exact I.
  - apply bind_pure; [apply Hf|]. intros y.
    apply bind_pure; [apply IH|]. intros ys. constructor. exact I.
Qed.

Lemma within_js_map (who : option handle) (name : string) (v : jsval)
    (f : jsval -> prog jsval) :
  (forall x, within who any 0 0 (f x)) -> within who any 0 0 (js_map name v f).
Proof.
  intros Hf. destruct v; simpl; try constructor.
  apply bind_pure; [now apply within_map_prog|]. intros. constructor. exact I.
Qed.

Lemma within_group_only (who : option handle) (chat : jsval) (p : string) :
  within who any 0 0 (group_only chat p).
Proof.
  unfold group_only. apply bind_pure; [apply within_prop|].
  intros g. destruct (truthy g); [apply within_prop|constructor; exact I].
Qed.

#[local] Hint Resolve within_group_only within_lift within_prop within_receiver within_client_call
  within_client_get within_method_call within_format_chat_id : within.

Ltac within_pure :=
  solve [ auto with within
        | apply within_js_map; intros; first [solve [auto with within] | within_body]
        | unfold await; repeat constructor
        | within_body ]
with within_body :=
  lazymatch goal with
  | |- within _ _ _ _ (Ret _) =>
      apply within_ret; first [exact I | left; reflexivity | right; reflexivity]
  | |- within _ _ _ _ (res_json _) =>
      apply within_ret; first [exact I | left; reflexivity | right; reflexivity]
  | |- within _ _ _ _ (res_status_json _ _) =>
      apply within_ret; first [exact I | left; reflexivity | right; reflexivity]
  | |- within _ _ _ _ (Throw _) => apply within_throw
  | |- within _ _ _ _ (Call _ _) =>
      first [ apply within_client | apply within_object | apply within_new
            | apply within_get | apply within_builtin ];
      intros; cbv beta; within_body
  | |- within _ _ _ _ (bind _ _) =>
      first [ apply bind_pure; [within_pure | intros; within_body]
            | apply bind_client; [within_pure | intros; within_body]
            | apply bind_object; [within_pure | intros; within_body] ]
  | |- within _ _ _ _ (if ?b then _ else _) => destruct b; within_body
  | |- within _ _ _ _ (match ?x with _ => _ end) => destruct x; within_body
  | |- _ => solve [auto with within]
  end.

Lemma within_chat_summary (who : option handle) (x : jsval) :
  within who any 0 0 (chat_summary x).
Proof. unfold chat_summary. within_body. Qed.

Lemma within_contact_summary (who : option handle) (x : jsval) :
  within who any 0 0 (contact_summary x).
Proof. unfold contact_summary. within_body. Qed.

Lemma within_message_summary (who : option handle) (x : jsval) :
  within who any 0 0 (message_summary x).
Proof. unfold message_summary. within_body. Qed.

#[local] Hint Resolve within_chat_summary within_contact_summary
  within_message_summary : within.

Lemma handlers_within (r : route) (h : option handle -> request -> handler)
    (c : option handle) (req : request) :
  app r = Guarded h ->
  within c ok_or_bad_request 1 3 (try_body (h c req)).
Proof.
  destruct r; simpl; intros Happ; try discriminate; injection Happ as <-.
  all: cbn.
  all: within_body.
Qed.

Lemma addressed_nil (who : option handle) : addressed_to who [].
Proof. intros ev h []. Qed.

Lemma addressed_cons (who : option handle) (ev : event) (t : trace) :
  (forall h, target ev = Some h -> who = Some h) ->
  addressed_to who t ->
  addressed_to who (ev :: t).
Proof.
  intros Hev Ht ev' h [<-|Hin] Htarget; [now apply Hev|].
  now apply (Ht ev').
Qed.

Ltac run_call Hrun IH :=
  match type of Hrun with
  | context [match ?o ?past ?eff with _ => _ end] =>
      let v := fresh "v" in
      let e := fresh "e" in
      destruct (o past eff) as [v|e];
      [ match type of Hrun with
        | context [run o ?past' (?k v)] =>
            let Hk := fresh "Hk" in
            destruct (run o past' (k v)) as [t0 r0] eqn:Hk;
            injection Hrun as <- <-;
            destruct (IH v o _ _ _ Hk) as (Hc & Hm & Hr & Ha)
        end
      | injection Hrun as <- <- ]
  end;
  simpl; repeat split;
  try lia; try assumption; try discriminate;
  (apply addressed_cons;
   [ unfold target; simpl; intros; congruence
   | first [assumption | apply addressed_nil] ]).

Lemma run_within (A : Type) (who : option handle) (P : A -> Prop)
    (c m : nat) (p : prog A) :
  within who P c m p ->
  forall o past t r,
    run o past p = (t, r) ->
    client_calls t <= c /\ method_calls t <= m /\
    (forall a, r = Normal a -> P a) /\
    addressed_to who t.
Proof.
  unfold client_calls, method_calls.
  induction 1 as [c m a Ha|c m e|c m h meth args k Hwho Hk IH
                  |c m recv meth args k Hk IH|c m cls args k Hk IH
                  |c m h q k Hwho Hk IH|c m name args k Hk IH];
    intros o past t r Hrun; simpl in Hrun.
  - injection Hrun as <- <-; simpl. repeat split; try lia.
    + intros a' Ha'. congruence.
    + apply addressed_nil.
  - injection Hrun as <- <-; simpl. repeat split; try lia.
    + intros a' Ha'. discriminate.
    + apply addressed_nil.
  - run_call Hrun IH.
  - run_call Hrun IH.
  - run_call Hrun IH.
  - run_call Hrun IH.
  - run_call Hrun IH.
Qed.

(** ** The script each handler follows *)

Lemma silent_bind (A B : Type) (p : prog A) (f : A -> prog B) :
  silent p -> (forall a, silent (f a)) -> silent (bind p f).
Proof. destruct p; simpl; auto. Qed.

Lemma silent_lift (A : Type) (x : completion A) : silent (lift x).
Proof. now destruct x. Qed.

Lemma silent_prop (v : jsval) (p : string) : silent (prop v p).
Proof. apply silent_lift. Qed.

Lemma silent_receiver (v : jsval) (m : string) : silent (receiver v m).
Proof. unfold receiver. now destruct (nullish v). Qed.

Lemma silent_format_chat_id (name : string) (x : jsval) :
  silent (format_chat_id name x).
Proof.
  unfold format_chat_id. apply silent_bind; [apply silent_lift|].
  intros b. exact I.
Qed.

Lemma silent_map_prog (f : jsval -> prog jsval) (l : list jsval) :
  (forall x, silent (f x)) -> silent (map_prog f l).
Proof.
  intros Hf. induction l as [|x l IH]; simpl; [exact I|].
  apply silent_bind; [apply Hf|]. intros y.
  apply silent_bind; [apply IH|]. intros ys. exact I.
Qed.

Lemma silent_js_map (name : string) (v : jsval) (f : jsval -> prog jsval) :
  (forall x, silent (f x)) -> silent (js_map name v f).
Proof.
  intros Hf. destruct v; simpl; try exact I.
  apply silent_bind; [now apply silent_map_prog|]. intros; exact I.
Qed.

Lemma silent_group_only (chat : jsval) (p : string) :
  silent (group_only chat p).
Proof.
  unfold group_only. apply silent_bind; [apply silent_prop|].
  intros g. destruct (truthy g); [apply silent_prop|exact I].
Qed.

Create HintDb silent.
#[local] Hint Resolve silent_lift silent_prop silent_receiver
  silent_format_chat_id silent_group_only : silent.

Ltac silent_body :=
  lazymatch goal with
  | |- silent (Ret _) => exact I
  | |- silent (Throw _) => exact I
  | |- silent (bind _ _) =>
      apply silent_bind; [silent_body | intros; silent_body]
  | |- silent (js_map _ _ _) =>
      apply silent_js_map; intros; silent_body
  | |- silent (if ?b then _ else _) => destruct b; silent_body
  | |- _ => solve [auto with silent]
  end.

Lemma silent_chat_summary (x : jsval) : silent (chat_summary x).
Proof. unfold chat_summary. silent_body. Qed.

Lemma silent_contact_summary (x : jsval) : silent (contact_summary x).
Proof. unfold contact_summary. silent_body. Qed.

Lemma silent_message_summary (x : jsval) : silent (message_summary x).
Proof. unfold message_summary. silent_body. Qed.

#[local] Hint Resolve silent_chat_summary silent_contact_summary
  silent_message_summary : silent.

Section Scripted.

Variable A : Type.
Variable B : Type.
Variable P : option jsval -> list string -> B -> Prop.


End Scripted.

Section ScriptedCalls.

Variable B : Type.
Variable P : option jsval -> list string -> B -> Prop.




End ScriptedCalls.










(** ** The client handle *)

Ltac split_oracle :=
  repeat match goal with
         | |- context [match ?o ?past ?eff with Returned _ => _ | Threw _ => _ end] =>
             destruct (o past eff)
         end.

Lemma initializeClient_run (o : oracle) (past : trace) (s : state) :
  let r := run_g o past s initializeClient in
  let s' := snd (fst r) in
  addressed_to (client s') (fst (fst r)) /\
  ((client s' = client s /\ built s' = built s /\ snd r <> Normal tt) \/
   (client s' = Some (built s) /\ built s' = S (built s))).
Proof.
  unfold initializeClient, gawait, assign. simpl.
  split_oracle; simpl.
  all: split;
    [ repeat (apply addressed_cons;
              [unfold target; simpl; intros; congruence|]);
      apply addressed_nil
    | first [ left; repeat split; discriminate
            | right; split; reflexivity ] ].
Qed.

Lemma run_g_bind (A B : Type) (o : oracle) (p : gprog A) (f : A -> gprog B) :
  forall past s,
    run_g o past s (gbind p f) =
    match run_g o past s p with
    | (t, s', Normal a) =>
        let '(t', s'', c) := run_g o (past ++ t) s' (f a) in (t ++ t', s'', c)
    | (t, s', Abrupt e) => (t, s', Abrupt e)
    end.
Proof.
  induction p as [a|e|eff k IH|k IH|w k IH]; intros past s; simpl.
  - rewrite app_nil_r. now destruct (run_g o past s (f a)) as [[t s'] c].
  - reflexivity.
  - destruct (o past eff) as [v|e]; [|reflexivity].
    rewrite IH.
    destruct (run_g o (past ++ [(eff, Returned v)]) s (k v))
      as [[t s'] [a|e]]; [|reflexivity].
    replace ((past ++ [(eff, Returned v)]) ++ t)
      with (past ++ (eff, Returned v) :: t)
      by (rewrite <- app_assoc; reflexivity).
    now destruct (run_g o (past ++ (eff, Returned v) :: t) s' (f a))
      as [[t' s''] c].
  - apply IH.
  - apply IH.
Qed.

(** Serving a request addresses the client that is the global once the
    request is served, and either leaves the global alone or makes it the
    client just built. *)
Lemma serve_client (o : oracle) (s : state) (r : route) (req : request) :
  let s' := fst (serve o s r req) in
  addressed_to (client s') (fst (snd (serve o s r req))) /\
  ((client s' = client s /\ built s' = built s) \/
   (client s' = Some (built s) /\ built s' = S (built s))).
Proof.
  unfold serve. destruct (app r) as [p|h] eqn:Happ.
  - destruct r; simpl in Happ; try discriminate; injection Happ as <-.
    + unfold run_sync, get_status, gawait; simpl.
      destruct (o [] (Builtin "Date.toISOString" [])); simpl; split; auto;
        (apply addressed_cons;
         [unfold target; simpl; intros; congruence|apply addressed_nil]).
    + unfold run_sync, post_initialize.
      change (run_g o [] s (GRead ?k)) with (run_g o [] s (k s)).
      cbv beta.
      destruct (clientReady s).
      * simpl. split; [apply addressed_nil|auto].
      * rewrite run_g_bind.
        pose proof (initializeClient_run o [] s) as Hinit.
        destruct (run_g o [] s initializeClient) as [[t s'] [[]|e]];
          simpl in Hinit |- *; rewrite ?app_nil_r;
          destruct Hinit as [Haddr [(Hc & Hb & _)|Hnew]]; auto.
  - simpl. split; [|auto].
    unfold checkClientReady. destruct (clientReady s) eqn:Hready; simpl.
    + rewrite (guarded_is_try r (client s) req Happ), run_handler_try. simpl.
      destruct (run o [] (try_body (h (client s) req))) as [t0 r0] eqn:Hrun.
      apply (run_within (handlers_within r (client s) req Happ) o [] Hrun).
    + apply addressed_nil.
Qed.

Lemma emit_client (o : oracle) (s : state) (h : handle) (ev : lifecycle) :
  let s' := snd (emit o s h ev) in
  client s' = client s /\ built s' = built s /\
  addressed_to (client s) (fst (emit o s h ev)).
Proof.
  unfold emit. destruct (listening s h ev); simpl;
    [|repeat split; apply addressed_nil].
  destruct ev; simpl; try (repeat split; apply addressed_nil).
  destruct (client s) as [c|] eqn:Hcl; simpl;
    [|repeat split; solve [congruence | apply addressed_nil]].
  destruct (o [] (ClientCall c "getWWebVersion" [])); simpl;
    repeat split; try congruence;
    (apply addressed_cons;
     [unfold target; simpl; intros; congruence|apply addressed_nil]).
Qed.

(** In every state the server reaches, the global is the client built
    last. *)
Lemma reachable_latest (s : state) :
  reachable s -> exists h, client s = Some h /\ built s = S h.
Proof.
  induction 1 as [o t s Hstart|o s r req Hs IH|o s h ev Hs IH Hh].
  - pose proof (initializeClient_run o [] initial) as Hinit.
    rewrite Hstart in Hinit. simpl in Hinit.
    destruct Hinit as [_ [(_ & _ & Hno)|[Hc Hb]]]; [now elim Hno|].
    exists 0. auto.
  - destruct IH as (h & Hc & Hb).
    destruct (serve_client o s r req) as [_ [[Hc' Hb']|[Hc' Hb']]].
    + exists h. rewrite Hc', Hb'. auto.
    + exists (built s). rewrite Hc', Hb'. auto.
  - destruct IH as (h0 & Hc & Hb).
    destruct (emit_client o s h ev) as (Hc' & Hb' & _).
    exists h0. rewrite Hc', Hb'. auto.
Qed.


(** ** Serialization of chats *)

Lemma run_bind (A B : Type) (o : oracle) (p : prog A) (f : A -> prog B) :
  forall past,
    run o past (bind p f) =
    match run o past p with
    | (t, Normal a) =>
        let (t', c) := run o (past ++ t) (f a) in (t ++ t', c)
    | (t, Abrupt e) => (t, Abrupt e)
    end.
Proof.
  induction p as [a|e|eff k IH]; intros past; simpl.
  - rewrite app_nil_r. now destruct (run o past (f a)).
  - reflexivity.
  - destruct (o past eff) as [v|e]; [|reflexivity].
    rewrite IH.
    destruct (run o (past ++ [(eff, Returned v)]) (k v)) as [t [a|e]];
      [|reflexivity].
    replace ((past ++ [(eff, Returned v)]) ++ t)
      with (past ++ (eff, Returned v) :: t)
      by (rewrite <- app_assoc; reflexivity).
    now destruct (run o (past ++ (eff, Returned v) :: t) (f a)).
Qed.

Lemma get_prop_read (v : jsval) (p : string) :
  nullish v = false -> get_prop v p = Normal (read v p).
Proof.
  unfold read. destruct v; simpl; intros Hv; try discriminate; reflexivity.
Qed.

Lemma chat_summary_entry (chat : jsval) :
  has_id chat = true -> chat_summary chat = Ret (chat_entry chat).
Proof.
  unfold has_id. intros Hid.
  apply andb_true_iff in Hid as [Hchat Hident].
  apply negb_true_iff in Hchat, Hident.
  unfold chat_summary, chat_entry, prop.
  rewrite (get_prop_read _ "id" Hchat); simpl.
  rewrite (get_prop_read _ "_serialized" Hident); simpl.
  repeat (rewrite (get_prop_read chat _ Hchat); simpl).
  reflexivity.
Qed.

Lemma run_chat_summaries (o : oracle) (chats : list jsval) :
  forallb has_id chats = true ->
  forall past,
    run o past (map_prog chat_summary chats) =
    ([], Normal (map chat_entry chats)).
Proof.
  induction chats as [|chat rest IH]; simpl; intros Hall past.
  - reflexivity.
  - apply andb_true_iff in Hall as [Hchat Hrest].
    rewrite (chat_summary_entry _ Hchat). simpl.
    rewrite run_bind, (IH Hrest). reflexivity.
Qed.

(** C7: GET /chats answers [{count, chats}]: for every list of chat objects
    the library returns, [count] is its length and [chats] lists, in the
    same order, one entry per chat made of [id] (read from
    [chat.id._serialized]), [name], [isGroup], [unreadCount] and
    [timestamp], each as the chat object carries it; nothing else of the
    chat object is read or sent, and [getChats] is the only call made. *)
Theorem chats_are_listed (o : oracle) (s : state) (req : request)
    (c : handle) (chats : list jsval) :
  clientReady s = true ->
  client s = Some c ->
  o [] (ClientCall c "getChats" []) = Returned (JArr chats) ->
  forallb has_id chats = true ->
  snd (serve o s GET_chats req) =
  ([(ClientCall c "getChats" [], Returned (JArr chats))],
   Responded (chat_listing chats)).
Proof.
  intros Hready Hclient Hget Hall.
  rewrite (@serve_guarded o s GET_chats req _ eq_refl Hready).
  cbn [try_body get_chats try_]. rewrite Hclient.
  unfold client_call, await. cbn [bind run]. rewrite Hget.
  unfold js_map. rewrite !run_bind, (run_chat_summaries o chats Hall).
  reflexivity.
Qed.

Lemma chats_are_listed_witness :
  snd (serve two_chats ready_state GET_chats (mk_request [])) =
  ([(ClientCall 0 "getChats" [], Returned (JArr [a_group; a_contact_chat]))],
   Responded (chat_listing [a_group; a_contact_chat])).
Proof.
  apply chats_are_listed; reflexivity.
Defined.

(** ** Chat-id normalization *)



Lemma format_chat_id_string (name id : string) :
  format_chat_id name (JStr id) = Ret (JStr (normalize id)).
Proof.
  unfold format_chat_id, normalize; simpl.
  now destruct (includes id "@c.us").
Qed.





(** ** Guards on the resolved object *)

(** Case analysis along a run: on what the environment answers, on the
    properties read and on the receivers. *)
Ltac split_run :=
  repeat match goal with
         | |- context [match ?o ?past ?eff with Returned _ => _ | Threw _ => _ end] =>
             let Ho := fresh "Ho" in destruct (o past eff) eqn:Ho; simpl
         | |- context [get_prop ?v ?p] =>
             let Hp := fresh "Hp" in destruct (get_prop v p) eqn:Hp; simpl
         | |- context [js_not ?v] =>
             let Hn := fresh "Hn" in destruct (js_not v) eqn:Hn; simpl
         | |- context [nullish ?v] =>
             let Hn := fresh "Hn" in destruct (nullish v) eqn:Hn; simpl
         | |- context [match ?c with Some _ => _ | None => _ end] =>
             let Hc := fresh "Hc" in destruct c eqn:Hc; simpl
         end.

Ltac close_guard Hflag Hfalsy :=
  intros Hserve Hin; injection Hserve as <- <-; simpl in Hin;
  repeat match goal with
         | H : _ \/ _ |- _ => destruct H as [H|H]
         | H : False |- _ => contradiction
         | H : (_, _) = (_, _) |- _ => injection H as ? ?; subst
         | H : ClientCall _ _ _ = ClientCall _ _ _ |- _ =>
             injection H as ? ? ?; subst
         | H : Returned _ = Returned _ |- _ => injection H as ?; subst
         end;
  try discriminate;
  try match goal with
      | Hp : get_prop ?x ?f = _ |- _ =>
          rewrite Hflag in Hp; first [discriminate Hp | injection Hp as <-]
      end;
  try match goal with
      | Hn : js_not _ = false |- _ =>
          unfold js_not in Hn; rewrite Hfalsy in Hn; discriminate Hn
      end;
  try (split; reflexivity).

Ltac enter_handler Hserve Hin :=
  match type of Hserve with
  | context [serve ?o ?s ?r ?req] =>
      let Hready := fresh "Hready" in
      destruct (clientReady s) eqn:Hready;
      [ rewrite (@serve_guarded o s r req _ eq_refl Hready) in Hserve
      | rewrite (@serve_not_ready o s r req _ eq_refl Hready) in Hserve;
        injection Hserve as <- <-; contradiction ];
      revert Hserve Hin; cbn;
      unfold method_call, receiver, prop, client_call;
      destruct (client s); simpl
  end.

(** C9: on POST /set-subject, POST /set-description, POST /leave-group and
    GET /group-info/:chatId, when the chat that [client.getChatById]
    resolved reads a falsy [isGroup], the answer is
    400 [{"error": "This can only be used in a group"}] and the lookup is
    the only effect of the request: [setSubject], [setDescription] and
    [leave] are not called. *)
Theorem group_guard (o : oracle) (s : state) (r : route) (req : request)
    (t : trace) (res : result) (h : handle) (args : list jsval)
    (chat v : jsval) :
  In r [POST_set_subject; POST_set_description; POST_leave_group;
        GET_group_info] ->
  snd (serve o s r req) = (t, res) ->
  In (ClientCall h "getChatById" args, Returned chat) t ->
  get_prop chat "isGroup" = Normal v ->
  truthy v = false ->
  res = Responded (bad_request "This can only be used in a group") /\
  t = [(ClientCall h "getChatById" args, Returned chat)].
Proof.
  intros Hr Hserve Hin Hflag Hfalsy. simpl in Hr.
  repeat (destruct Hr as [<-|Hr]); try contradiction;
    enter_handler Hserve Hin; split_run; close_guard Hflag Hfalsy.
Qed.

Lemma group_guard_witness :
  snd (serve one_contact ready_state POST_set_subject rename_request) =
  ([(ClientCall 0 "getChatById" [JStr "491701234567@c.us"],
     Returned a_contact_chat)],
   Responded (bad_request "This can only be used in a group")).
Proof.
  destruct (@group_guard one_contact ready_state POST_set_subject
              rename_request _ _ 0 [JStr "491701234567@c.us"]
              a_contact_chat (JBool false)
              (or_introl eq_refl) eq_refl (or_introl eq_refl)
              eq_refl eq_refl) as [Hres Ht].
  exact (f_equal2 pair Ht Hres).
Defined.

Lemma readable_not_nullish (x v : jsval) (p : string) :
  get_prop x p = Normal v -> nullish x = false.
Proof. destruct x; simpl; intros H; try discriminate; reflexivity. Qed.

Lemma own_message_is_deleted (o : oracle) (s : state) (req : request)
    (c : handle) (m v : jsval) :
  clientReady s = true ->
  client s = Some c ->
  truthy (field req "messageId") = true ->
  field req "forEveryone" = JUndefined ->
  o [] (ClientCall c "getMessageById" [field req "messageId"]) = Returned m ->
  get_prop m "fromMe" = Normal v ->
  truthy v = true ->
  exists out,
    snd (serve o s POST_delete_message req) =
    ([(ClientCall c "getMessageById" [field req "messageId"], Returned m);
      (ObjCall m "delete" [JBool true], out)],
     ends_with out succeeded).
Proof.
  intros Hready Hclient Hid Hdefault Hget Hflag Hown.
  rewrite (@serve_guarded o s POST_delete_message req _ eq_refl Hready).
  cbn [try_body post_delete_message try_].
  unfold js_not, with_default. rewrite Hid, Hdefault, Hclient. simpl.
  rewrite Hget. unfold prop. rewrite Hflag. simpl.
  unfold js_not. rewrite Hown. simpl.
  unfold method_call, receiver.
  rewrite (readable_not_nullish _ _ Hflag). simpl.
  destruct (o _ (ObjCall m "delete" _)) as [x|e]; simpl;
    [exists (Returned x) | exists (Threw e)]; reflexivity.
Qed.

Lemma own_message_is_edited (o : oracle) (s : state) (req : request)
    (c : handle) (m v : jsval) :
  clientReady s = true ->
  client s = Some c ->
  truthy (field req "messageId") = true ->
  truthy (field req "newText") = true ->
  o [] (ClientCall c "getMessageById" [field req "messageId"]) = Returned m ->
  get_prop m "fromMe" = Normal v ->
  truthy v = true ->
  exists out,
    snd (serve o s POST_edit_message req) =
    ([(ClientCall c "getMessageById" [field req "messageId"], Returned m);
      (ObjCall m "edit" [field req "newText"], out)],
     ends_with out succeeded).
Proof.
  intros Hready Hclient Hid Htext Hget Hflag Hown.
  rewrite (@serve_guarded o s POST_edit_message req _ eq_refl Hready).
  cbn [try_body post_edit_message try_].
  unfold js_not. rewrite Hid, Htext, Hclient. simpl.
  rewrite Hget. unfold prop. rewrite Hflag. simpl.
  unfold js_not. rewrite Hown. simpl.
  unfold method_call, receiver.
  rewrite (readable_not_nullish _ _ Hflag). simpl.
  destruct (o _ (ObjCall m "edit" _)) as [x|e]; simpl;
    [exists (Returned x) | exists (Threw e)]; reflexivity.
Qed.

(** C10: on POST /delete-message and POST /edit-message, when the message
    that [client.getMessageById] resolved reads a falsy [fromMe], the answer
    is 400 with "Can only delete own messages" or "Can only edit own
    messages" and the lookup is the only effect of the request: [delete]
    and [edit] are not called.  When it reads a truthy [fromMe], the request
    is the lookup followed by [message.delete(forEveryone)] or
    [message.edit(newText)], answered [{success: true}] when that call
    returns; with no [forEveryone] in the body the call is [delete(true)],
    and no other method is called on a message. *)
Theorem own_message_guard (o : oracle) (s : state) (r : route)
    (req : request) (t : trace) (res : result) :
  snd (serve o s r req) = (t, res) ->
  (forall h args m v,
      In (ClientCall h "getMessageById" args, Returned m) t ->
      get_prop m "fromMe" = Normal v ->
      truthy v = false ->
      (r = POST_delete_message ->
       res = Responded (bad_request "Can only delete own messages") /\
       t = [(ClientCall h "getMessageById" args, Returned m)]) /\
      (r = POST_edit_message ->
       res = Responded (bad_request "Can only edit own messages") /\
       t = [(ClientCall h "getMessageById" args, Returned m)])) /\
  (r = POST_delete_message ->
   field req "forEveryone" = JUndefined ->
   forall recv method args out,
     In (ObjCall recv method args, out) t ->
     method = "delete" /\ args = [JBool true]) /\
  (forall c m v,
      clientReady s = true ->
      client s = Some c ->
      truthy (field req "messageId") = true ->
      o [] (ClientCall c "getMessageById" [field req "messageId"])
      = Returned m ->
      get_prop m "fromMe" = Normal v ->
      truthy v = true ->
      (r = POST_delete_message ->
       field req "forEveryone" = JUndefined ->
       exists out,
         t = [(ClientCall c "getMessageById" [field req "messageId"],
               Returned m);
              (ObjCall m "delete" [JBool true], out)] /\
         res = ends_with out succeeded) /\
      (r = POST_edit_message ->
       truthy (field req "newText") = true ->
       exists out,
         t = [(ClientCall c "getMessageById" [field req "messageId"],
               Returned m);
              (ObjCall m "edit" [field req "newText"], out)] /\
         res = ends_with out succeeded)).
Proof.
  intros Hserve. split; [|split].
  - intros h args m v Hin Hflag Hfalsy.
    split; intros ->;
      enter_handler Hserve Hin; split_run; close_guard Hflag Hfalsy.
  - intros -> Hdefault recv method args out Hin.
    enter_handler Hserve Hin; unfold with_default; rewrite ?Hdefault; simpl;
      split_run; intros Hserve Hin; injection Hserve as <- <-;
      simpl in Hin;
      repeat match goal with
             | H : _ \/ _ |- _ => destruct H as [H|H]
             | H : False |- _ => contradiction
             | H : (_, _) = (_, _) |- _ => injection H as ? ?; subst
             end;
      try discriminate;
      try (split; reflexivity).
  - intros c m v Hready Hclient Hid Hget Hflag Hown. split.
    + intros -> Hdefault.
      destruct (own_message_is_deleted o s req Hready Hclient Hid Hdefault
                  Hget Hflag Hown) as [out Hout].
      rewrite Hout in Hserve. injection Hserve as <- <-.
      exists out. split; reflexivity.
    + intros -> Htext.
      destruct (own_message_is_edited o s req Hready Hclient Hid Htext
                  Hget Hflag Hown) as [out Hout].
      rewrite Hout in Hserve. injection Hserve as <- <-.
      exists out. split; reflexivity.
Qed.

Lemma own_message_guard_witness :
  snd (serve one_contact ready_state POST_delete_message delete_theirs) =
  ([(ClientCall 0 "getMessageById" [JStr "false_491701234567@c.us_3EB0"],
     Returned a_foreign_message)],
   Responded (bad_request "Can only delete own messages")) /\
  (exists out,
      fst (snd (serve one_contact ready_state POST_delete_message
                  delete_mine)) =
      [(ClientCall 0 "getMessageById" [JStr "true_491701234567@c.us_3EB1"],
        Returned an_own_message);
       (ObjCall an_own_message "delete" [JBool true], out)] /\
      snd (snd (serve one_contact ready_state POST_delete_message
                  delete_mine)) = ends_with out succeeded).
Proof.
  split.
  - pose proof (proj1 (@own_message_guard one_contact ready_state
                         POST_delete_message delete_theirs _ _ eq_refl)
                      0 [JStr "false_491701234567@c.us_3EB0"]
                      a_foreign_message (JBool false)
                      (or_introl eq_refl) eq_refl eq_refl) as [Hdelete _].
    destruct (Hdelete eq_refl) as [Hres Ht].
    exact (f_equal2 pair Ht Hres).
  - pose proof (proj2 (proj2 (@own_message_guard one_contact ready_state
                                POST_delete_message delete_mine _ _ eq_refl))
                      0 an_own_message (JBool true)
                      eq_refl eq_refl eq_refl eq_refl eq_refl eq_refl)
      as [Hdelete _].
    exact (Hdelete eq_refl eq_refl).
Defined.

(** ** Listeners and the clients built *)

Ltac pick_count :=
  first [ exists 8; split; [reflexivity|] | exists 7; split; [reflexivity|]
        | exists 6; split; [reflexivity|] | exists 5; split; [reflexivity|]
        | exists 4; split; [reflexivity|] | exists 3; split; [reflexivity|]
        | exists 2; split; [reflexivity|] | exists 1; split; [reflexivity|]
        | exists 0; split; [simpl; rewrite app_nil_r; reflexivity|] ].

(** Whatever the environment does, [initializeClient] only adds listeners,
    and only to the client it builds. *)
Lemma initializeClient_grows (o : oracle) (past : trace) (s : state) :
  exists n,
    listeners (snd (fst (run_g o past s initializeClient))) =
    listeners s ++ listeners_of (built s) n /\
    built s <= built (snd (fst (run_g o past s initializeClient))) /\
    (n = 0 \/ built (snd (fst (run_g o past s initializeClient)))
              = S (built s)).
Proof.
  unfold initializeClient, gawait, assign. simpl.
  split_oracle; simpl; unfold listeners_of;
    repeat rewrite <- app_assoc; simpl; pick_count;
    (split; [lia | first [left; reflexivity | right; reflexivity]]).
Qed.

Lemma listening_grows (s s' : state) (extra : list (handle * lifecycle))
    (h : handle) (ev : lifecycle) :
  listeners s' = listeners s ++ extra ->
  listening s h ev = true ->
  listening s' h ev = true.
Proof.
  unfold listening. intros Hgrow Hl.
  rewrite Hgrow, existsb_app. apply orb_true_iff. left. exact Hl.
Qed.

(** When [initializeClient] returns, the client it built carries a listener
    for each of the eight events. *)
Lemma initializeClient_listens (o : oracle) (past : trace) (s s' : state)
    (t : trace) :
  run_g o past s initializeClient = (t, s', Normal tt) ->
  forall ev, listening s' (built s) ev = true.
Proof.
  unfold initializeClient, gawait, assign. simpl.
  split_oracle; simpl; intros Hrun ev; try discriminate Hrun.
  injection Hrun as _ <-.
  unfold listening; simpl. rewrite !existsb_app. simpl.
  rewrite Nat.eqb_refl.
  destruct ev; simpl; rewrite ?orb_true_r; reflexivity.
Qed.

(** POST /initialize while the flag is false is [initializeClient()]. *)
Lemma serve_initialize (o : oracle) (s : state) (req : request) :
  clientReady s = false ->
  serve o s POST_initialize req =
  match run_g o [] s initializeClient with
  | (t, s', Normal _) => (s', (t, Responded initialization_started))
  | (t, s', Abrupt e) => (s', (t, Responded (error_middleware e)))
  end.
Proof.
  intros Hoff. unfold serve. cbn [app]. unfold run_sync, post_initialize.
  change (run_g o [] s (GRead ?k)) with (run_g o [] s (k s)). cbv beta.
  rewrite Hoff, run_g_bind.
  destruct (run_g o [] s initializeClient) as [[t s'] [[]|e]]; simpl;
    rewrite ?app_nil_r; reflexivity.
Qed.

Lemma serve_listening (o : oracle) (s : state) (r : route) (req : request)
    (h : handle) (ev : lifecycle) :
  listening s h ev = true ->
  listening (fst (serve o s r req)) h ev = true.
Proof.
  intros Hl. unfold serve. destruct (app r) as [p|hd] eqn:Happ; [|exact Hl].
  destruct r; simpl in Happ; try discriminate; injection Happ as <-.
  - unfold run_sync, get_status, gawait; simpl.
    destruct (o [] (Builtin "Date.toISOString" [])); exact Hl.
  - unfold run_sync, post_initialize.
    change (run_g o [] s (GRead ?k)) with (run_g o [] s (k s)). cbv beta.
    destruct (clientReady s); [exact Hl|].
    rewrite run_g_bind.
    destruct (initializeClient_grows o [] s) as (n & Hn & _).
    destruct (run_g o [] s initializeClient) as [[t s'] [[]|e]];
      simpl in Hn |- *; exact (@listening_grows s s' _ h ev Hn Hl).
Qed.

Lemma emit_listening (o : oracle) (s : state) (h' : handle) (ev' : lifecycle)
    (h : handle) (ev : lifecycle) :
  listening (snd (emit o s h' ev')) h ev = listening s h ev.
Proof.
  unfold emit. destruct (listening s h' ev'); [|reflexivity].
  destruct ev'; simpl; try reflexivity.
  destruct (client s) as [c|]; simpl; [|reflexivity].
  destruct (o [] (ClientCall c "getWWebVersion" [])); reflexivity.
Qed.

(** POST /initialize answered "Client initialization started" left the
    client it built listening to the eight events. *)
Lemma initialize_listens (o : oracle) (s : state) (req : request) :
  clientReady s = false ->
  snd (snd (serve o s POST_initialize req)) = Responded initialization_started ->
  forall ev, listening (fst (serve o s POST_initialize req)) (built s) ev = true.
Proof.
  intros Hoff. rewrite (serve_initialize o s req Hoff).
  destruct (run_g o [] s initializeClient) as [[t s'] [[]|e]] eqn:Hrun;
    simpl; intros Hres ev.
  - exact (@initializeClient_listens o [] s s' t Hrun ev).
  - discriminate Hres.
Qed.

Lemma serve_unchanged (o : oracle) (s : state) (r : route) (req : request) :
  r <> POST_initialize -> fst (serve o s r req) = s.
Proof.
  intros Hr. destruct r; try contradiction; try reflexivity.
  unfold serve, run_sync, get_status, gawait; simpl.
  destruct (o [] (Builtin "Date.toISOString" [])); reflexivity.
Qed.

Lemma serve_grows (o : oracle) (s : state) (r : route) (req : request) :
  exists n,
    listeners (fst (serve o s r req)) =
    listeners s ++ listeners_of (built s) n /\
    built s <= built (fst (serve o s r req)) /\
    (n = 0 \/ built (fst (serve o s r req)) = S (built s)).
Proof.
  assert (exists n, listeners s = listeners s ++ listeners_of (built s) n /\
                    built s <= built s /\ (n = 0 \/ built s = S (built s)))
    as Hsame
      by (exists 0; simpl; rewrite app_nil_r; auto).
  assert ({r = POST_initialize} + {r <> POST_initialize}) as [->|Hr]
      by (destruct r; (now left) || (right; discriminate)).
  - destruct (clientReady s) eqn:Hflag.
    + unfold serve, run_sync, post_initialize; simpl.
      rewrite Hflag. exact Hsame.
    + rewrite (serve_initialize o s req Hflag).
      destruct (initializeClient_grows o [] s) as (n & Hn & Hle & Hb).
      destruct (run_g o [] s initializeClient) as [[t s'] [[]|e]];
        simpl in *; exists n; auto.
  - rewrite (serve_unchanged o s req Hr). exact Hsame.
Qed.

Lemma listening_of (b : handle) (n : nat) (h : handle) (ev : lifecycle) :
  existsb (fun l => Nat.eqb (fst l) h && lifecycle_eqb (snd l) ev)
          (listeners_of b n) = true ->
  h = b /\ n <> 0.
Proof.
  intros Hex. apply existsb_exists in Hex as ([h' ev'] & Hin & Hmatch).
  unfold listeners_of in Hin. apply in_map_iff in Hin as (ev0 & Heq & Hin0).
  injection Heq as <- <-. simpl in Hmatch.
  apply andb_true_iff in Hmatch as [Hh _].
  apply Nat.eqb_eq in Hh. split; [now symmetry|].
  intros ->. simpl in Hin0. contradiction.
Qed.

(** Every listener belongs to a client that was built. *)
Lemma reachable_listeners (s : state) :
  reachable s -> forall h ev, listening s h ev = true -> h < built s.
Proof.
  induction 1 as [o t s Hstart|o s r req Hs IH|o s h' ev' Hs IH Hh'];
    intros h ev Hl.
  - destruct (initializeClient_grows o [] initial) as (n & Hn & Hle & Hb).
    rewrite Hstart in Hn, Hle, Hb. simpl in Hn, Hle, Hb.
    unfold listening in Hl. rewrite Hn in Hl. simpl in Hl.
    apply listening_of in Hl as [-> Hn0].
    destruct Hb as [->|Hb]; [now elim Hn0|]. rewrite Hb. lia.
  - destruct (serve_grows o s r req) as (n & Hn & Hle & Hb).
    unfold listening in Hl. rewrite Hn, existsb_app in Hl.
    apply orb_true_iff in Hl as [Hl|Hl].
    + specialize (IH h ev Hl). lia.
    + apply listening_of in Hl as [-> Hn0].
      destruct Hb as [->|Hb]; [now elim Hn0|]. rewrite Hb. lia.
  - rewrite emit_listening in Hl.
    destruct (emit_client o s h' ev') as (_ & Hb & _).
    rewrite Hb. now apply (IH h ev).
Qed.

(** C2: the flag follows the lifecycle events only.  When
    [initializeClient] returns, at start-up or for POST /initialize, the
    client it built carries a listener for each of the eight events, and a
    listener once registered stays registered.  On a client that carries
    the listeners, 'ready' sets the flag, 'auth_failure' and 'disconnected'
    clear it and the five other consumed events leave it as it was; on a
    client without listener an event changes nothing; the flag never goes
    from false to true on another event than 'ready'; and serving a
    request, whatever the route, leaves it as it was. *)
Theorem readiness_flag_evolution (o : oracle) (s : state) :
  (forall h ev,
      listening s h ev = true ->
      clientReady (snd (emit o s h ev)) = flag_after ev (clientReady s)) /\
  (forall h ev, listening s h ev = false -> snd (emit o s h ev) = s) /\
  (forall h ev,
      clientReady s = false ->
      clientReady (snd (emit o s h ev)) = true ->
      ev = ready) /\
  (forall r req, clientReady (fst (serve o s r req)) = clientReady s) /\
  (forall past t s',
      run_g o past s initializeClient = (t, s', Normal tt) ->
      forall o' ev,
        listening s' (built s) ev = true /\
        clientReady (snd (emit o' s' (built s) ev))
        = flag_after ev (clientReady s)) /\
  (forall req,
      clientReady s = false ->
      snd (snd (serve o s POST_initialize req))
      = Responded initialization_started ->
      forall ev,
        listening (fst (serve o s POST_initialize req)) (built s) ev = true) /\
  (forall h ev,
      listening s h ev = true ->
      (forall r req, listening (fst (serve o s r req)) h ev = true) /\
      (forall h' ev', listening (snd (emit o s h' ev')) h ev = true)).
Proof.
  split; [|split; [|split; [|split; [|split; [|split]]]]].
  - intros h ev. apply emit_flag.
  - intros h ev Hl. unfold emit. now rewrite Hl.
  - intros h ev Hoff Hon.
    destruct (listening s h ev) eqn:Hl.
    + rewrite (emit_flag o s h ev Hl), Hoff in Hon.
      destruct ev; simpl in Hon; congruence.
    + unfold emit in Hon. rewrite Hl in Hon. simpl in Hon. congruence.
  - intros r req. apply serve_keeps_flag.
  - intros past t s' Hrun o' ev.
    pose proof (@initializeClient_listens o past s s' t Hrun ev) as Hl.
    split; [exact Hl|].
    rewrite (emit_flag o' s' (built s) ev Hl). f_equal.
    pose proof (run_g_keeps_flag keeps_flag_initializeClient o past s) as Hk.
    now rewrite Hrun in Hk.
  - intros req Hoff Hres ev. now apply initialize_listens.
  - intros h ev Hl. split.
    + intros r req. now apply serve_listening.
    + intros h' ev'. now rewrite emit_listening.
Qed.

Lemma readiness_flag_evolution_witness :
  listening (snd (fst (run_g quiet [] initial initializeClient))) 0 ready
  = true /\
  clientReady
    (snd (emit quiet (snd (fst (run_g quiet [] initial initializeClient)))
            0 ready)) = true /\
  clientReady (snd (emit quiet ready_state 0 disconnected)) = false /\
  snd (emit quiet initial 0 ready) = initial.
Proof.
  destruct (proj1 (proj2 (proj2 (proj2 (proj2
              (readiness_flag_evolution quiet initial)))))
              [] _ _ eq_refl quiet ready) as [Hlistens Hready].
  split; [exact Hlistens|]. split; [exact Hready|]. split.
  - apply (proj1 (readiness_flag_evolution quiet ready_state) 0 disconnected).
    reflexivity.
  - apply (proj1 (proj2 (readiness_flag_evolution quiet initial)) 0 ready).
    reflexivity.
Defined.

Lemma initialize_rebinds (o : oracle) (s : state) (req : request) :
  clientReady s = false ->
  snd (snd (serve o s POST_initialize req)) = Responded initialization_started ->
  client (fst (serve o s POST_initialize req)) = Some (built s) /\
  built (fst (serve o s POST_initialize req)) = S (built s).
Proof.
  intros Hoff. rewrite (serve_initialize o s req Hoff).
  pose proof (initializeClient_run o [] s) as Hinit.
  destruct (run_g o [] s initializeClient) as [[t s'] [[]|e]];
    simpl in Hinit |- *; intros Hres; [|discriminate Hres].
  destruct Hinit as [_ [(_ & _ & Hno)|Hnew]]; [now elim Hno|exact Hnew].
Qed.

(** C6, as the code has it.  POST /initialize while the flag is true
    answers "Client already initialized", has no effect and leaves the state
    as it was, so no client is built.  In every state the server reaches the
    global holds the client built last, and every call made on a client,
    serving any request or running a listener, is addressed to the client
    the global holds.  POST /initialize while the flag is false builds a
    further client and makes it the global; the clients built before are
    not torn down: each keeps its listeners, so a 'ready' of any of them
    still sets the flag, while the calls go to the global. *)
Theorem one_client_served (o : oracle) (s : state) (r : route)
    (req : request) :
  reachable s ->
  (clientReady s = true ->
   serve o s POST_initialize req =
   (s, ([], Responded already_initialized))) /\
  (exists h, client s = Some h /\ built s = S h) /\
  addressed_to (client (fst (serve o s r req))) (fst (snd (serve o s r req))) /\
  (forall h ev, addressed_to (client s) (fst (emit o s h ev))) /\
  (clientReady s = false ->
   snd (snd (serve o s POST_initialize req))
   = Responded initialization_started ->
   client (fst (serve o s POST_initialize req)) = Some (built s) /\
   built (fst (serve o s POST_initialize req)) = S (built s) /\
   (forall ev,
       listening (fst (serve o s POST_initialize req)) (built s) ev = true) /\
   (forall h ev,
       listening s h ev = true ->
       h <> built s /\
       listening (fst (serve o s POST_initialize req)) h ev = true)) /\
  (forall h ev, listening s h ev = true -> h < built s) /\
  (forall h o',
      listening s h ready = true ->
      clientReady (snd (emit o' s h ready)) = true /\
      client (snd (emit o' s h ready)) = client s).
Proof.
  intros Hs. split; [|split; [|split; [|split; [|split; [|split]]]]].
  - intros Hready. unfold serve, run_sync, post_initialize; simpl.
    now rewrite Hready.
  - now apply reachable_latest.
  - apply serve_client.
  - intros h ev. apply emit_client.
  - intros Hoff Hres.
    destruct (initialize_rebinds o s req Hoff Hres) as [Hc Hb].
    split; [exact Hc|]. split; [exact Hb|]. split.
    + now apply initialize_listens.
    + intros h ev Hl. split.
      * pose proof (reachable_listeners Hs h ev Hl). lia.
      * now apply serve_listening.
  - now apply reachable_listeners.
  - intros h o' Hl. split.
    + now rewrite (emit_flag o' s h ready Hl).
    + apply emit_client.
Qed.

Lemma one_client_served_witness :
  reachable started /\
  client (fst (serve quiet started POST_initialize hello)) = Some 1 /\
  listening (fst (serve quiet started POST_initialize hello)) 0 ready = true /\
  addressed_to (client (fst (serve quiet started POST_initialize hello)))
               (fst (snd (serve quiet started POST_initialize hello))).
Proof.
  assert (reachable started) as Hs
      by (eapply (reach_start quiet); reflexivity).
  split; [exact Hs|].
  destruct (one_client_served quiet POST_initialize hello Hs)
    as (_ & _ & Haddr & _ & Hsecond & _).
  destruct (Hsecond eq_refl eq_refl) as (Hc & _ & _ & Hkeeps).
  split; [exact Hc|]. split; [|exact Haddr].
  exact (proj2 (Hkeeps 0 ready eq_refl)).
Defined.

(** C6 as worded fails in the state POST /initialize reaches before the
    start-up client has reported ready: clients 0 and 1 are both built and
    both carry the listeners, and a 'ready' of client 0 sets the flag while
    the global is client 1. *)
Lemma two_clients_listen :
  reachable started_twice /\
  ~ one_session started_twice /\
  clientReady (snd (emit quiet started_twice 0 ready)) = true /\
  client (snd (emit quiet started_twice 0 ready)) = Some 1.
Proof.
  split; [|split; [|split; reflexivity]].
  - apply (reach_request quiet (s := started) POST_initialize (mk_request [])).
    eapply (reach_start quiet); reflexivity.
  - intros Hone.
    assert (0 = 1) as Hsame; [|discriminate Hsame].
    apply Hone; (split; [vm_compute; lia | exists ready; reflexivity]).
Qed.

(** * Further properties *)

(** Case analysis on the tests of a body and on what is left of a run, and
    the step from a request served while the flag is true to its handler. *)
Ltac split_tests :=
  repeat match goal with
         | |- context [if ?b then _ else _] =>
             let Hb := fresh "Hb" in destruct b eqn:Hb; simpl
         end.

Ltac split_rest :=
  repeat match goal with
         | |- context [let (_, _) := ?e in _] => destruct e; simpl
         end.

Ltac enter_ready Hserve Hready :=
  match type of Hserve with
  | context [serve ?o ?s ?r ?req] =>
      rewrite (@serve_guarded o s r req _ eq_refl Hready) in Hserve
  end.

(** ** Lookups that resolve nothing *)

Ltac close_unresolved Hnull :=
  intros Hserve Hhead; injection Hserve as <- <-; simpl in Hhead;
  try discriminate Hhead;
  injection Hhead as ? ? ?; subst;
  match type of Hnull with
  | nullish ?y = true =>
      try congruence;
      destruct y; try discriminate Hnull; simpl in *;
      repeat (match goal with
              | H : Abrupt _ = Abrupt _ |- _ => injection H as ?; subst
              | H : Normal _ = Normal _ |- _ => injection H as ?; subst
              end; simpl in * );
      try discriminate; split; reflexivity
  end.

(** X1: on the 24 routes whose handler reads a property or a method off the
    object its lookup resolved right after the lookup, a lookup that
    resolves [undefined] or [null] is the request's only effect, and the
    answer is 500 with the runtime's text, "Cannot read properties of
    undefined (reading 'isGroup')" and the like: an unknown chat or message
    is reported as a server error, not as a 404 or a 400. *)
Theorem unresolved_lookup_is_500 (o : oracle) (s : state) (r : route)
    (req : request) (t rest : trace) (res : result) (p : string)
    (asked : effect) (x : jsval) :
  first_use r = Some p ->
  snd (serve o s r req) = (t, res) ->
  t = (asked, Returned x) :: rest ->
  nullish x = true ->
  rest = [] /\ res = Responded (server_error (cannot_read_text x p)).
Proof.
  intros Huse Hserve Hhead Hnull.
  destruct r; simpl in Huse; try discriminate Huse; injection Huse as <-;
    match type of Hserve with
    | context [serve ?o ?s ?r ?req] =>
        let Hready := fresh "Hready" in
        destruct (clientReady s) eqn:Hready;
        [ rewrite (@serve_guarded o s r req _ eq_refl Hready) in Hserve
        | rewrite (@serve_not_ready o s r req _ eq_refl Hready) in Hserve;
          injection Hserve as <- <-; discriminate Hhead ];
        revert Hserve Hhead; cbn;
        unfold method_call, receiver, prop, client_call;
        destruct (client s); simpl
    end; split_run; split_tests; split_run; split_rest;
    close_unresolved Hnull.
Qed.

Lemma unresolved_lookup_is_500_witness :
  snd (serve quiet ready_state POST_leave_group leave_request) =
  ([(ClientCall 0 "getChatById" [JStr "120363@g.us"], Returned JUndefined)],
   Responded
     (server_error
        "Cannot read properties of undefined (reading 'isGroup')")).
Proof.
  destruct (@unresolved_lookup_is_500 quiet ready_state POST_leave_group
              leave_request _ [] _ "isGroup"
              (ClientCall 0 "getChatById" [JStr "120363@g.us"]) JUndefined
              eq_refl eq_refl eq_refl eq_refl) as [_ Hres].
  exact (f_equal2 pair eq_refl Hres).
Defined.

(** ** Recipients that are not text *)

Ltac use_validated Hvalid :=
  repeat match goal with
         | Hb : _ || _ = true |- _ =>
             apply orb_true_iff in Hb; destruct Hb as [Hb|Hb]
         end;
  match goal with
  | Hb : negb (truthy ?v) = true, Hfield : field ?req ?f = ?v |- _ =>
      let Hm := fresh "Hm" in
      pose proof (Hvalid f Present ltac:(tauto)) as Hm;
      rewrite Hfield in Hm; unfold missing, js_not in Hm;
      rewrite Hb in Hm; discriminate Hm
  | Hb : negb (truthy (field ?req ?f)) = true |- _ =>
      let Hm := fresh "Hm" in
      first [ pose proof (Hvalid f Present ltac:(tauto)) as Hm
            | pose proof (Hvalid f ArrayField ltac:(tauto)) as Hm ];
      unfold missing, js_not in Hm; rewrite Hb in Hm; discriminate Hm
  | Hb : negb (isArray (field ?req ?f)) = true |- _ =>
      let Hm := fresh "Hm" in
      pose proof (Hvalid f ArrayField ltac:(tauto)) as Hm;
      unfold missing in Hm; rewrite Hb, orb_true_r in Hm;
      discriminate Hm
  end.

(** X2: on the eight routes that send to [to], a [to] that is a number, a
    boolean or an object never reaches the library: the request has no
    effect, and it is answered with the route's 400 when a required field
    fails its test, else with 500 "to.includes is not a function". *)
Theorem recipient_must_be_text (o : oracle) (s : state) (r : route)
    (req : request) (t : trace) (res : result) :
  In r sends_to ->
  clientReady s = true ->
  no_includes (field req "to") = true ->
  snd (serve o s r req) = (t, res) ->
  t = [] /\
  (res = Responded (bad_request (required_error r)) \/
   res = Responded (server_error "to.includes is not a function")) /\
  (validated r req ->
   res = Responded (server_error "to.includes is not a function")).
Proof.
  intros Hin Hready Hto Hserve. simpl in Hin.
  repeat (destruct Hin as [<-|Hin]; [|]); try contradiction;
    enter_ready Hserve Hready;
    revert Hserve; cbn; unfold js_not;
    try destruct (req_file req) eqn:Hfile; simpl;
    split_tests;
    destruct (field req "to") eqn:Hfield; try discriminate Hto; simpl;
    intros Hserve; injection Hserve as <- <-;
    (split; [reflexivity|]); (split; [auto|]);
    intros [Hvalid Hupload]; simpl in Hvalid;
    try reflexivity;
    try (exfalso; apply Hupload; [reflexivity|exact Hfile]);
    use_validated Hvalid.
Qed.

Lemma recipient_must_be_text_witness :
  snd (serve quiet ready_state POST_send_message a_number_for_recipient) =
  ([], Responded (server_error "to.includes is not a function")).
Proof.
  assert (validated POST_send_message a_number_for_recipient) as Hvalid.
  { split; [|discriminate].
    intros f k [Hf|[Hf|[]]]; injection Hf as <- <-; reflexivity. }
  destruct (@recipient_must_be_text quiet ready_state POST_send_message
              a_number_for_recipient _ _
              (or_introl eq_refl) eq_refl eq_refl eq_refl)
    as (Ht & _ & Hres).
  exact (f_equal2 pair Ht (Hres Hvalid)).
Defined.

(** ** Lists with an entry that is not text *)

Lemma map_prog_malformed (name : string) (pre : list string) (bad : jsval)
    (post : list jsval) :
  no_includes bad = true ->
  map_prog (format_chat_id name) (map JStr pre ++ bad :: post) =
  Throw (not_a_function (name +++ ".includes")).
Proof.
  intros Hbad. induction pre as [|id pre IH].
  - destruct bad; try discriminate Hbad; reflexivity.
  - change (map JStr (id :: pre) ++ bad :: post)
      with (JStr id :: (map JStr pre ++ bad :: post)).
    cbn [map_prog]. rewrite format_chat_id_string, IH. reflexivity.
Qed.

Lemma js_map_malformed (array name : string) (pre : list string)
    (bad : jsval) (post : list jsval) :
  no_includes bad = true ->
  js_map array (with_malformed pre bad post) (format_chat_id name) =
  Throw (not_a_function (name +++ ".includes")).
Proof.
  intros Hbad. unfold js_map, with_malformed.
  now rewrite map_prog_malformed.
Qed.

(** X3: a participant or mention that is a number, a boolean or an object
    ends the request with 500 "p.includes is not a function"
    ("m.includes" for mentions) and nothing is added, created or sent.
    POST /create-group formats the list before its only call, so the
    request has no effect; POST /add-members and POST /mention-users look
    the chat up first, so the lookup is their only effect, whatever it
    resolved. *)
Theorem malformed_entry_ends_request (o : oracle) (s : state)
    (req : request) (c : handle) (pre : list string) (bad : jsval)
    (post : list jsval) :
  clientReady s = true ->
  client s = Some c ->
  no_includes bad = true ->
  (truthy (field req "title") = true ->
   field req "participants" = with_malformed pre bad post ->
   snd (serve o s POST_create_group req) =
   ([], Responded (server_error "p.includes is not a function"))) /\
  (forall g,
      truthy (field req "chatId") = true ->
      field req "participants" = with_malformed pre bad post ->
      o [] (ClientCall c "getChatById" [field req "chatId"]) = Returned g ->
      snd (serve o s POST_add_members req) =
      ([(ClientCall c "getChatById" [field req "chatId"], Returned g)],
       Responded (server_error "p.includes is not a function"))) /\
  (forall g,
      truthy (field req "chatId") = true ->
      truthy (field req "message") = true ->
      field req "mentions" = with_malformed pre bad post ->
      o [] (ClientCall c "getChatById" [field req "chatId"]) = Returned g ->
      snd (serve o s POST_mention_users req) =
      ([(ClientCall c "getChatById" [field req "chatId"], Returned g)],
       Responded (server_error "m.includes is not a function"))).
Proof.
  intros Hready Hclient Hbad. split; [|split].
  - intros Htitle Hfield.
    rewrite (@serve_guarded o s POST_create_group req _ eq_refl Hready).
    cbn [try_body post_create_group try_]. unfold js_not.
    rewrite Hfield, Htitle, (@js_map_malformed _ _ pre bad post Hbad). reflexivity.
  - intros g HchatId Hfield Hget.
    rewrite (@serve_guarded o s POST_add_members req _ eq_refl Hready).
    cbn [try_body post_add_members try_]. unfold js_not.
    rewrite Hfield, HchatId, (@js_map_malformed _ _ pre bad post Hbad), Hclient.
    simpl. rewrite Hget. reflexivity.
  - intros g HchatId Hmessage Hfield Hget.
    rewrite (@serve_guarded o s POST_mention_users req _ eq_refl Hready).
    cbn [try_body post_mention_users try_]. unfold js_not.
    rewrite Hfield, HchatId, Hmessage, (@js_map_malformed _ _ pre bad post Hbad),
      Hclient.
    simpl. rewrite Hget. reflexivity.
Qed.

Lemma malformed_entry_ends_request_witness :
  snd (serve quiet ready_state POST_create_group a_malformed_invitation) =
  ([], Responded (server_error "p.includes is not a function")) /\
  snd (serve quiet ready_state POST_add_members a_malformed_invitation) =
  ([(ClientCall 0 "getChatById" [JStr "120363@g.us"], Returned JUndefined)],
   Responded (server_error "p.includes is not a function")).
Proof.
  destruct (@malformed_entry_ends_request quiet ready_state
              a_malformed_invitation 0 ["491701234567"] (JNum 4915) []
              eq_refl eq_refl eq_refl) as (Hcreate & Hadd & _).
  split.
  - exact (Hcreate eq_refl eq_refl).
  - exact (Hadd JUndefined eq_refl eq_refl eq_refl).
Defined.

(** ** Labels added to a chat *)

Lemma map_prog_ids (labels : list jsval) :
  Forall (fun l => nullish l = false) labels ->
  map_prog (fun l => prop l "id") labels = Ret (label_ids labels).
Proof.
  induction 1 as [|l labels Hl _ IH]; [reflexivity|].
  cbn [map_prog label_ids map]. unfold prop at 1, read.
  destruct l; try discriminate Hl; simpl;
    fold (label_ids labels); rewrite IH; reflexivity.
Qed.

(** X4: POST /add-labels looks the chat up, asks it for its labels and
    calls [changeLabels] once, with the ids of the labels the chat carries
    followed by the new ids, in order and with nothing removed: a label the
    chat already carries is sent again.  The answer is [{success: true}]
    when [changeLabels] returns and the 500 of its error when it throws. *)
Theorem add_labels_appends (o : oracle) (s : state) (req : request)
    (c : handle) (chat : jsval) (labels new : list jsval) :
  clientReady s = true ->
  client s = Some c ->
  truthy (field req "chatId") = true ->
  field req "newLabelIds" = JArr new ->
  o [] (ClientCall c "getChatById" [field req "chatId"]) = Returned chat ->
  nullish chat = false ->
  o [(ClientCall c "getChatById" [field req "chatId"], Returned chat)]
    (ObjCall chat "getLabels" []) = Returned (JArr labels) ->
  Forall (fun l => nullish l = false) labels ->
  exists out,
    snd (serve o s POST_add_labels req) =
    ([(ClientCall c "getChatById" [field req "chatId"], Returned chat);
      (ObjCall chat "getLabels" [], Returned (JArr labels));
      (ObjCall chat "changeLabels" [JArr (label_ids labels ++ new)], out)],
     ends_with out succeeded).
Proof.
  intros Hready Hclient HchatId Hnew Hget Hchat Hlabels Hall.
  rewrite (@serve_guarded o s POST_add_labels req _ eq_refl Hready).
  cbn [try_body post_add_labels try_]. unfold js_not.
  rewrite Hnew, HchatId, Hclient. simpl. rewrite Hget.
  unfold method_call, receiver. rewrite Hchat. simpl. rewrite Hlabels.
  unfold js_map. rewrite (map_prog_ids Hall). simpl.
  destruct (o _ (ObjCall chat "changeLabels" _)) as [v|e] eqn:Hout; simpl.
  - exists (Returned v). reflexivity.
  - exists (Threw e). reflexivity.
Qed.

Lemma add_labels_appends_witness :
  exists out,
    snd (serve one_group ready_state POST_add_labels add_two_labels) =
    ([(ClientCall 0 "getChatById" [JStr "120363@g.us"], Returned a_group);
      (ObjCall a_group "getLabels" [],
       Returned (JArr [JObj [("id", JStr "7")]]));
      (ObjCall a_group "changeLabels" [JArr [JStr "7"; JStr "8"; JStr "9"]],
       out)],
     ends_with out succeeded).
Proof.
  exact (@add_labels_appends one_group ready_state add_two_labels 0 a_group
           [JObj [("id", JStr "7")]] [JStr "8"; JStr "9"]
           eq_refl eq_refl eq_refl eq_refl eq_refl eq_refl eq_refl
           (Forall_cons (JObj [("id", JStr "7")])
              (eq_refl : nullish (JObj [("id", JStr "7")]) = false)
              (Forall_nil _))).
Defined.

(** ** Defaults of optional fields *)



(** ** Options of the membership requests *)

Lemma request_options_keys (ids sleep : jsval) :
  (In "requesterIds" (keys (request_options ids sleep)) <->
   truthy ids = true) /\
  (In "sleep" (keys (request_options ids sleep)) <-> sleep <> JUndefined) /\
  (forall k,
      In k (keys (request_options ids sleep)) ->
      (k = "requesterIds" /\ read (request_options ids sleep) k = ids) \/
      (k = "sleep" /\ read (request_options ids sleep) k = sleep)).
Proof.
  unfold request_options, read.
  destruct (truthy ids) eqn:Hids; destruct sleep; simpl;
    repeat split; intros;
    repeat match goal with
           | H : _ \/ _ |- _ => destruct H as [H|H]
           | H : False |- _ => contradiction
           end;
    subst; simpl; try congruence; auto.
Qed.

(** X6: POST /approve-request and POST /reject-request call their one
    client method with the chat id and an options object built from the
    body: [requesterIds] is among its keys exactly when the field is truthy
    (an empty list is), [sleep] exactly when the field is not [undefined]
    (so 0 and [null] are passed on), each key carries the field's value,
    and there is no other key.  The method's result is returned under
    [result]. *)
Theorem membership_options (o : oracle) (s : state) (r : route)
    (req : request) (c : handle) (t : trace) (res : result) :
  In r [POST_approve_request; POST_reject_request] ->
  clientReady s = true ->
  client s = Some c ->
  truthy (field req "chatId") = true ->
  snd (serve o s r req) = (t, res) ->
  exists method options out,
    script r = [method] /\
    t = [(ClientCall c method [field req "chatId"; options], out)] /\
    (In "requesterIds" (keys options) <->
     truthy (field req "requesterIds") = true) /\
    (In "sleep" (keys options) <-> field req "sleep" <> JUndefined) /\
    (forall k,
        In k (keys options) ->
        (k = "requesterIds" /\
         read options k = field req "requesterIds") \/
        (k = "sleep" /\ read options k = field req "sleep")) /\
    res = match out with
          | Returned v => Responded (succeeded_with v)
          | Threw e => caught e
          end.
Proof.
  intros Hin Hready Hclient HchatId Hserve.
  destruct (request_options_keys (field req "requesterIds")
                                 (field req "sleep")) as (Hids & Hsleep & Hk).
  simpl in Hin.
  repeat (destruct Hin as [<-|Hin]; [|]); try contradiction;
    enter_ready Hserve Hready;
    revert Hserve; cbn; unfold js_not, client_call;
    rewrite HchatId, Hclient; simpl;
    match goal with
    | |- context [o [] (ClientCall c ?m ?args)] =>
        destruct (o [] (ClientCall c m args)) as [v|e] eqn:Hout; simpl;
        intros Hserve; injection Hserve as <- <-;
        exists m;
        [ exists (request_options (field req "requesterIds")
                                  (field req "sleep")), (Returned v)
        | exists (request_options (field req "requesterIds")
                                  (field req "sleep")), (Threw e) ]
    end;
    repeat split; solve [reflexivity | apply Hids | apply Hsleep | apply Hk].
Qed.

Lemma membership_options_witness :
  exists options out,
    fst (snd (serve quiet ready_state POST_approve_request approve_all)) =
    [(ClientCall 0 "approveGroupMembershipRequests"
        [JStr "120363@g.us"; options], out)] /\
    In "requesterIds" (keys options) /\
    In "sleep" (keys options).
Proof.
  destruct (@membership_options quiet ready_state POST_approve_request
              approve_all 0 _ _ (or_introl eq_refl) eq_refl eq_refl eq_refl
              eq_refl)
    as (method & options & out & Hscript & Ht & Hids & Hsleep & _).
  injection Hscript as <-.
  exists options, out. split; [exact Ht|]. split.
  - apply Hids. reflexivity.
  - apply Hsleep. discriminate.
Defined.

(** ** The upload of POST /send-media *)



(** ** Guards on the content of a message *)

(** X8: GET /download-media/:messageId and GET /quoted-message/:messageId
    test [hasMedia] and [hasQuotedMsg] of the message that
    [client.getMessageById] resolved.  When the property reads falsy the
    answer is 400 with the route's text and the lookup is the only effect;
    when it reads truthy the one further effect is [downloadMedia()], or
    [getQuotedMessage()], called on that message. *)
Theorem content_guards (o : oracle) (s : state) (r : route) (req : request)
    (t : trace) (res : result) (h : handle) (args : list jsval)
    (msg v : jsval) (p method text : string) :
  content_guard r = Some (p, method, text) ->
  snd (serve o s r req) = (t, res) ->
  In (ClientCall h "getMessageById" args, Returned msg) t ->
  get_prop msg p = Normal v ->
  (truthy v = false ->
   res = Responded (bad_request text) /\
   t = [(ClientCall h "getMessageById" args, Returned msg)]) /\
  (truthy v = true ->
   exists out,
     t = [(ClientCall h "getMessageById" args, Returned msg);
          (ObjCall msg method [], out)]).
Proof.
  intros Hguard Hserve Hin Hflag.
  destruct r; simpl in Hguard; try discriminate Hguard;
    injection Hguard as <- <- <-;
    enter_handler Hserve Hin; split_run; split_tests;
    intros Hserve Hin; injection Hserve as <- <-; simpl in Hin;
    repeat match goal with
           | H : _ \/ _ |- _ => destruct H as [H|H]
           | H : False |- _ => contradiction
           | H : (_, _) = (_, _) |- _ => injection H as ? ?; subst
           | H : ClientCall _ _ _ = ClientCall _ _ _ |- _ =>
               injection H as ? ? ?; subst
           | H : Returned _ = Returned _ |- _ => injection H as ?; subst
           end;
    try discriminate;
    try match goal with
        | Hn : nullish ?x = true |- _ =>
            rewrite (@readable_not_nullish x _ _ Hflag) in Hn; discriminate Hn
        end;
    try match goal with
        | Hp : get_prop ?x ?f = _ |- _ =>
            rewrite Hflag in Hp; first [discriminate Hp | injection Hp as <-]
        end;
    (split; intros Htruthy;
     try match goal with
         | Hn : js_not _ = _ |- _ =>
             unfold js_not in Hn; rewrite Htruthy in Hn; discriminate Hn
         end;
     try (split; reflexivity); try (eexists; reflexivity)).
Qed.

Lemma content_guards_witness :
  snd (serve one_contact ready_state GET_download_media about_message) =
  ([(ClientCall 0 "getMessageById" [JStr "true_491701234567@c.us_3EB1"],
     Returned an_own_message)],
   Responded (bad_request "Message does not have media")).
Proof.
  destruct (@content_guards one_contact ready_state GET_download_media
              about_message _ _ 0 [JStr "true_491701234567@c.us_3EB1"]
              an_own_message JUndefined _ _ _
              eq_refl eq_refl (or_introl eq_refl) eq_refl) as [Hfalsy _].
  destruct (Hfalsy eq_refl) as [Hres Ht].
  exact (f_equal2 pair Ht Hres).
Defined.

(** ** Results that cannot be read *)

(** X9: a call that has returned is not undone by what follows it.  When
    [client.sendMessage] on POST /send-message, [downloadMedia] on
    GET /download-media/:messageId or [getQuotedMessage] on
    GET /quoted-message/:messageId resolves [undefined] or [null], the call
    is the last effect of the request and the answer is 500 with the
    runtime's "Cannot read properties of undefined (reading 'id')" (or
    'mimetype'): for POST /send-message the message was handed to the
    library although the answer is an error. *)
Theorem unreadable_result_is_500 (o : oracle) (s : state) (r : route)
    (req : request) (t : trace) (res : result) (method p : string)
    (eff : effect) (x : jsval) :
  result_use r = Some (method, p) ->
  snd (serve o s r req) = (t, res) ->
  In (eff, Returned x) t ->
  callee eff = method ->
  nullish x = true ->
  (exists before, t = before ++ [(eff, Returned x)]) /\
  res = Responded (server_error (cannot_read_text x p)).
Proof.
  intros Huse Hserve Hin Hcallee Hnull.
  destruct r; simpl in Huse; try discriminate Huse;
    injection Huse as <- <-;
    enter_handler Hserve Hin; unfold format_chat_id;
    try destruct (js_includes "to" (field req "to") "@c.us") as [b|e];
    simpl; split_run; split_tests; split_run;
    intros Hserve Hin; injection Hserve as <- <-; simpl in Hin;
    repeat match goal with
           | H : _ \/ _ |- _ => destruct H as [H|H]
           | H : False |- _ => contradiction
           | H : (_, _) = (_, _) |- _ => injection H as ? ?; subst
           end;
    simpl in Hcallee; try discriminate Hcallee;
    try congruence;
    destruct x; try discriminate Hnull; simpl in *;
    repeat (match goal with
            | H : Abrupt _ = Abrupt _ |- _ => injection H as ?; subst
            | H : Normal _ = Normal _ |- _ => injection H as ?; subst
            end; simpl in * );
    try discriminate;
    (split; [|reflexivity]);
    first [ exists []; reflexivity | eexists [_]; reflexivity ].
Qed.

Lemma unreadable_result_is_500_witness :
  snd (serve media_gone ready_state GET_download_media about_message) =
  ([(ClientCall 0 "getMessageById" [JStr "true_491701234567@c.us_3EB1"],
     Returned (JObj [("hasMedia", JBool true)]));
    (ObjCall (JObj [("hasMedia", JBool true)]) "downloadMedia" [],
     Returned JUndefined)],
   Responded
     (server_error
        "Cannot read properties of undefined (reading 'mimetype')")).
Proof.
  destruct (@unreadable_result_is_500 media_gone ready_state
              GET_download_media about_message _ _ _ _
              (ObjCall (JObj [("hasMedia", JBool true)]) "downloadMedia" [])
              JUndefined eq_refl eq_refl (or_intror (or_introl eq_refl))
              eq_refl eq_refl) as [_ Hres].
  exact (f_equal2 pair eq_refl Hres).
Defined.

(** ** What GET /status reports *)

(** X10: GET /status is answered in every state, ready or not: it leaves
    the state as it was, asks the clock and nothing else, and reports the
    flag as it is.  Asked after a lifecycle event of a client that carries
    the listeners, it reports true after 'ready', false after
    'auth_failure' and 'disconnected', and what it reported before after
    any other event.  When the clock throws, the error middleware answers
    500 "Internal server error". *)
Theorem status_reports_flag (o : oracle) (s : state) (req : request) :
  fst (serve o s GET_status req) = s /\
  (forall ts,
      o [] clock = Returned ts ->
      snd (serve o s GET_status req) =
      ([(clock, Returned ts)], Responded (status_reply (clientReady s) ts))) /\
  (forall e,
      o [] clock = Threw e ->
      snd (serve o s GET_status req) =
      ([(clock, Threw e)], Responded (error_middleware e))) /\
  (forall o' h ev ts,
      listening s h ev = true ->
      o [] clock = Returned ts ->
      snd (snd (serve o (snd (emit o' s h ev)) GET_status req)) =
      Responded (status_reply (flag_after ev (clientReady s)) ts)).
Proof.
  assert (forall s0 ts,
             o [] clock = Returned ts ->
             snd (serve o s0 GET_status req) =
             ([(clock, Returned ts)],
              Responded (status_reply (clientReady s0) ts))) as Hreport.
  { intros s0 ts Hts. unfold serve, run_sync, get_status, gawait; simpl.
    unfold clock in Hts. rewrite Hts. reflexivity. }
  split; [|split; [|split]].
  - apply serve_unchanged. discriminate.
  - apply Hreport.
  - intros e He. unfold serve, run_sync, get_status, gawait; simpl.
    unfold clock in He. rewrite He. reflexivity.
  - intros o' h ev ts Hl Hts.
    rewrite (Hreport _ ts Hts), (emit_flag o' s h ev Hl). reflexivity.
Qed.

Lemma status_reports_flag_witness :
  snd (snd (serve quiet (snd (emit quiet ready_state 0 disconnected))
              GET_status hello)) =
  Responded (status_reply false JUndefined).
Proof.
  destruct (status_reports_flag quiet ready_state hello)
    as (_ & _ & _ & Hafter).
  exact (Hafter quiet 0 disconnected JUndefined eq_refl eq_refl).
Defined.

(** ** The gate between start-up and a disconnection *)

Lemma serve_gate (o : oracle) (s : state) (r : route) (req : request)
    (hd : option handle -> request -> handler) :
  app r = Guarded hd ->
  snd (serve o s r req) =
  if clientReady s then run_handler o (hd (client s) req)
  else ([], Responded not_ready).
Proof.
  intros Happ. unfold serve, checkClientReady. rewrite Happ. simpl.
  now destruct (clientReady s).
Qed.

(** X11: the service window.  Once [initializeClient()] has returned at
    start-up, the global is client 0 and the flag is false: a guarded route
    answers 503 and has no effect.  After client 0 has emitted 'ready' the
    route's handler runs, on client 0.  After a further event of client 0
    the handler still runs, unless the event is 'auth_failure' or
    'disconnected': then the route answers 503 again and has no effect, and
    the state holds the same client: nothing is rebuilt or restarted. *)
Theorem service_window (o0 o o1 o2 : oracle) (t0 : trace) (s0 : state)
    (r : route) (hd : option handle -> request -> handler) (req : request)
    (ev : lifecycle) :
  run_g o0 [] initial initializeClient = (t0, s0, Normal tt) ->
  app r = Guarded hd ->
  let up := snd (emit o1 s0 0 ready) in
  let later := snd (emit o2 up 0 ev) in
  snd (serve o s0 r req) = ([], Responded not_ready) /\
  snd (serve o up r req) = run_handler o (hd (Some 0) req) /\
  snd (serve o later r req) =
  (if closing ev then ([], Responded not_ready)
   else run_handler o (hd (Some 0) req)) /\
  client later = Some 0 /\ built later = 1.
Proof.
  intros Hstart Happ up later.
  assert (clientReady s0 = false) as Hoff.
  { pose proof (run_g_keeps_flag keeps_flag_initializeClient o0 [] initial)
      as Hflag.
    rewrite Hstart in Hflag. exact Hflag. }
  assert (client s0 = Some 0 /\ built s0 = 1) as [Hclient Hbuilt].
  { pose proof (initializeClient_run o0 [] initial) as Hinit.
    rewrite Hstart in Hinit. simpl in Hinit.
    destruct Hinit as [_ [(_ & _ & Hno)|Hnew]]; [now elim Hno|exact Hnew]. }
  assert (forall e, listening s0 0 e = true) as Hlisten
      by exact (@initializeClient_listens o0 [] initial s0 t0 Hstart).
  destruct (emit_client o1 s0 0 ready) as (Hc1 & Hb1 & _).
  destruct (emit_client o2 up 0 ev) as (Hc2 & Hb2 & _).
  fold up in Hc1, Hb1. fold later in Hc2, Hb2.
  assert (clientReady up = true) as Hup
      by (unfold up; now rewrite (emit_flag o1 s0 0 ready (Hlisten ready))).
  assert (listening up 0 ev = true) as Hl2
      by (unfold up; rewrite emit_listening; apply Hlisten).
  assert (clientReady later = negb (closing ev)) as Hlater.
  { unfold later. rewrite (emit_flag o2 up 0 ev Hl2), Hup.
    now destruct ev. }
  split; [|split; [|split; [|split]]].
  - rewrite (@serve_gate o s0 r req hd Happ), Hoff. reflexivity.
  - rewrite (@serve_gate o up r req hd Happ), Hup, Hc1, Hclient. reflexivity.
  - rewrite (@serve_gate o later r req hd Happ), Hlater, Hc2, Hc1, Hclient.
    now destruct (closing ev).
  - now rewrite Hc2, Hc1.
  - now rewrite Hb2, Hb1.
Qed.

Lemma service_window_witness :
  snd (serve quiet started POST_send_message hello) =
  ([], Responded not_ready) /\
  snd (serve quiet (snd (emit quiet (snd (emit quiet started 0 ready)) 0
                           disconnected))
         POST_send_message hello) =
  ([], Responded not_ready).
Proof.
  destruct (@service_window quiet quiet quiet quiet _ started
              POST_send_message _ hello disconnected eq_refl eq_refl)
    as (Hbefore & _ & Hafter & _).
  exact (conj Hbefore Hafter).
Defined.

(** ** The cause of readiness *)



(** ** What is said of a group and of a chat *)

(** X13: GET /group-info/:chatId, for a chat that reads a truthy [isGroup],
    has the lookup as its only effect and answers with the chat's name,
    description and creation time, its owner's [user], its participants and
    their number.  It needs the owner and the participants: a group whose
    [owner] or [participants] reads [undefined] or [null] is answered with
    500 "Cannot read properties of undefined (reading 'user')" (or
    'length'). *)
Theorem group_info_needs_owner (o : oracle) (s : state) (req : request)
    (c : handle) (chat v : jsval) :
  clientReady s = true ->
  client s = Some c ->
  o [] (ClientCall c "getChatById" [param req "chatId"]) = Returned chat ->
  get_prop chat "isGroup" = Normal v ->
  truthy v = true ->
  fst (snd (serve o s GET_group_info req)) =
  [(ClientCall c "getChatById" [param req "chatId"], Returned chat)] /\
  snd (snd (serve o s GET_group_info req)) =
  Responded
    (if nullish (read chat "owner") then
       server_error (cannot_read_text (read chat "owner") "user")
     else if nullish (read chat "participants") then
       server_error (cannot_read_text (read chat "participants") "length")
     else group_info chat).
Proof.
  intros Hready Hclient Hget Hflag Htruthy.
  rewrite (@serve_guarded o s GET_group_info req _ eq_refl Hready).
  cbn [try_body get_group_info try_]. rewrite Hclient. simpl.
  rewrite Hget. unfold prop, js_not, group_info, read.
  destruct chat as [| |b|n|str|l|fields]; try discriminate Hflag;
    simpl in Hflag |- *; injection Hflag as <-; rewrite ?Htruthy; simpl.
  all: try (rewrite Htruthy; simpl).
  all: try (split; reflexivity).
  all: try discriminate Htruthy.
  destruct (lookup fields "owner"); simpl;
    destruct (lookup fields "participants"); simpl; split; reflexivity.
Qed.

Lemma group_info_needs_owner_witness :
  snd (serve orphan_groups ready_state GET_group_info about_chat) =
  ([(ClientCall 0 "getChatById" [JStr "491701234567@c.us"],
     Returned an_orphan_group)],
   Responded
     (server_error "Cannot read properties of undefined (reading 'user')")).
Proof.
  destruct (@group_info_needs_owner orphan_groups ready_state about_chat 0
              an_orphan_group (JBool true) eq_refl eq_refl eq_refl eq_refl
              eq_refl) as [Ht Hres].
  rewrite (surjective_pairing (snd (serve _ _ _ _))).
  exact (f_equal2 pair Ht Hres).
Defined.




(** ** A client that cannot be built *)

(** X15: POST /initialize while the flag is false, when [new Client(..)]
    throws: the error middleware answers 500 "Internal server error", the
    two constructors are the only effects, and the state is as it was: the
    global still holds the client it held, nothing is registered, and the
    flag is still false. *)
Theorem failed_initialize_changes_nothing (o : oracle) (s : state)
    (req : request) (auth e : jsval) :
  clientReady s = false ->
  o [] (New "LocalAuth" []) = Returned auth ->
  o [(New "LocalAuth" [], Returned auth)]
    (New "Client" [client_options auth]) = Threw e ->
  serve o s POST_initialize req =
  (s, ([(New "LocalAuth" [], Returned auth);
        (New "Client" [client_options auth], Threw e)],
       Responded (error_middleware e))).
Proof.
  intros Hoff Hauth Hclient.
  rewrite (serve_initialize o s req Hoff).
  unfold initializeClient, gawait, assign. simpl.
  rewrite Hauth. simpl. unfold client_options in Hclient.
  rewrite Hclient. reflexivity.
Qed.

Lemma failed_initialize_changes_nothing_witness :
  serve launch_fails started POST_initialize hello =
  (started,
   ([(New "LocalAuth" [], Returned JUndefined);
     (New "Client" [client_options JUndefined],
      Threw (an_error "Failed to launch the browser process"))],
    Responded (error_middleware
                 (an_error "Failed to launch the browser process")))).
Proof.
  exact (@failed_initialize_changes_nothing launch_fails started hello
           JUndefined (an_error "Failed to launch the browser process")
           eq_refl eq_refl eq_refl).
Defined.

(** ** Values that count as missing *)



(** ** The poll that is sent *)

(** X17: POST /send-poll with a text recipient builds one [Poll] from the
    question, the options and an object whose [allowMultipleAnswers] is the
    field, false when absent, and whose [messageSecret] is there exactly
    when the field is truthy; what the constructor returned is sent to the
    normalized recipient.  A constructor that throws ends the request
    before anything is sent. *)
Theorem poll_is_built_then_sent (o : oracle) (s : state) (req : request)
    (c : handle) (id : string) (t : trace) (res : result) :
  clientReady s = true ->
  client s = Some c ->
  field req "to" = JStr id ->
  id <> "" ->
  truthy (field req "question") = true ->
  isArray (field req "options") = true ->
  snd (serve o s POST_send_poll req) = (t, res) ->
  exists pollOptions made,
    keys pollOptions =
    "allowMultipleAnswers" ::
    (if truthy (field req "messageSecret") then ["messageSecret"] else []) /\
    read pollOptions "allowMultipleAnswers" =
    (if is_undefined (field req "allowMultipleAnswers") then JBool false
     else field req "allowMultipleAnswers") /\
    (truthy (field req "messageSecret") = true ->
     read pollOptions "messageSecret" = field req "messageSecret") /\
    match made with
    | Returned poll =>
        exists out,
          t = [(New "Poll" [field req "question"; field req "options";
                            pollOptions], Returned poll);
               (ClientCall c "sendMessage" [JStr (normalize id); poll], out)]
          /\ res = ends_with out succeeded
    | Threw e =>
        t = [(New "Poll" [field req "question"; field req "options";
                          pollOptions], Threw e)]
        /\ res = caught e
    end.
Proof.
  intros Hready Hclient Hto Hid Hquestion Hoptions Hserve.
  assert (truthy (JStr id) = true) as Htruthy
      by (simpl; destruct id; [now elim Hid|reflexivity]).
  assert (truthy (field req "options") = true) as Hgiven
      by (destruct (field req "options"); try discriminate Hoptions;
          reflexivity).
  enter_ready Hserve Hready. revert Hserve.
  cbn [try_body post_send_poll try_]. unfold js_not.
  rewrite Hto, Htruthy, Hquestion, Hgiven, Hoptions,
    format_chat_id_string, Hclient.
  simpl.
  match goal with
  | |- context [o [] (New "Poll" [_; _; ?opts])] =>
      exists opts;
      destruct (o [] (New "Poll" [field req "question"; field req "options";
                                  opts])) as [poll|e] eqn:Hmade;
      [exists (Returned poll)|exists (Threw e)]
  end; simpl;
    (split; [now destruct (truthy (field req "messageSecret"))|]);
    (split; [unfold with_default, read; simpl;
             now destruct (is_undefined (field req "allowMultipleAnswers"))|]);
    (split; [intros Hsecret; rewrite Hsecret; reflexivity|]).
  - destruct (o _ (ClientCall c "sendMessage" _)) as [v|e] eqn:Hout;
      simpl in Hserve |- *; revert Hserve; simpl; intros Hserve;
      injection Hserve as <- <-;
      [exists (Returned v)|exists (Threw e)]; split; reflexivity.
  - revert Hserve; simpl; intros Hserve; injection Hserve as <- <-.
    split; reflexivity.
Qed.

Lemma poll_is_built_then_sent_witness :
  exists pollOptions,
    keys pollOptions = ["allowMultipleAnswers"; "messageSecret"] /\
    read pollOptions "allowMultipleAnswers" = JBool false /\
    read pollOptions "messageSecret" = JArr [JNum 1; JNum 2].
Proof.
  assert ("491701234567" <> "") as Hid by discriminate.
  destruct (@poll_is_built_then_sent quiet ready_state a_poll 0
              "491701234567" _ _ eq_refl eq_refl eq_refl Hid eq_refl eq_refl
              eq_refl)
    as (pollOptions & made & Hkeys & Hmultiple & Hsecret & _).
  exists pollOptions.
  exact (conj Hkeys (conj Hmultiple (Hsecret eq_refl))).
Defined.
